(** * RAG Desk (Local): a shallow embedding of [app.py]

    The development follows the pipeline of the program: script
    detection, document loading, chunking, index rebuild, retrieval and
    the translation gate.  Python values are modelled as follows.

    - [str] is a list of Unicode code points ([list N]); [len] is the
      list length and slicing follows Python's clamping rules.
    - [int] is [Z] (Python integers are unbounded).
    - [None] is the [None] of an [option]; truthiness tests ([x or ""],
      [if d and m]) are written out.
    - A [dict] is a [gmap] from strings to values.
    - A raised exception is the [None] of an [option] result. *)

From Stdlib Require Import ZArith NArith List Lia Sorted Permutation DecimalZ.
From Stdlib Require Import Ascii String.
From stdpp Require Import base option numbers list sorting gmap.
Import ListNotations.

Local Open Scope Z_scope.

(** ** Python strings *)

Abbreviation pystr := (list N).

(** An ASCII string literal as a Python string. *)
Definition str (s : string) : pystr :=
  map N_of_ascii (list_ascii_of_string s).
Arguments str s%_string.

(** [x or ""] for an argument that may be [None]. *)
Definition or_empty (x : option pystr) : pystr :=
  match x with
  | Some s => s
  | None => []
  end.

(** [len(s)] *)
Definition len (s : pystr) : Z := Z.of_nat (length s).

(** [str.isspace] on one code point: the characters that [str.strip()]
    removes (bidirectional class WS, B or S, or category Zs). *)
Definition py_isspace (c : N) : bool :=
  ((0x09 <=? c) && (c <=? 0x0D) || (0x1C <=? c) && (c <=? 0x20)
   || (c =? 0x85) || (c =? 0xA0) || (c =? 0x1680)
   || (0x2000 <=? c) && (c <=? 0x200A)
   || (c =? 0x2028) || (c =? 0x2029) || (c =? 0x202F) || (c =? 0x205F)
   || (c =? 0x3000))%N.

Fixpoint lstrip (s : pystr) : pystr :=
  match s with
  | [] => []
  | c :: r => if py_isspace c then lstrip r else s
  end.

Definition rstrip (s : pystr) : pystr := rev (lstrip (rev s)).

(** [s.strip()] *)
Definition py_strip (s : pystr) : pystr := rstrip (lstrip s).

(** [s.replace("\r\n", "\n")]: left to right, non-overlapping. *)
Fixpoint replace_crlf (s : pystr) : pystr :=
  match s with
  | [] => []
  | c :: r =>
      match r with
      | d :: r' =>
          if ((c =? 0x0D) && (d =? 0x0A))%N then 0x0A%N :: replace_crlf r'
          else c :: replace_crlf r
      | [] => [c]
      end
  end.

(** Index clamping of a slice bound, as [PySlice_AdjustIndices] does it
    for step 1: a negative bound counts from the end. *)
Definition clamp_index (n i : Z) : Z :=
  if i <? 0 then Z.max 0 (i + n) else Z.min i n.

(** [s[lo:hi]] *)
Definition py_slice (s : pystr) (lo hi : Z) : pystr :=
  let n := len s in
  let l := clamp_index n lo in
  let h := clamp_index n hi in
  take (Z.to_nat (h - l)) (drop (Z.to_nat l) s).

(** [len(xs)] for a list. *)
Definition len_list {A} (xs : list A) : Z := Z.of_nat (length xs).

(** ** Chunker: [chunk_text] *)

(** The local variables of [chunk_text] that the loop updates; [end_]
    is unbound until the first iteration. *)
Record chunk_locals := ChunkLocals {
  start : Z;
  end_ : option Z;
  chunks : list pystr
}.

Inductive flow := Next | Break.

(** One pass through the body of [while start < n]. *)
Definition chunk_body (text : pystr) (n chunk_size overlap : Z)
    (l : chunk_locals) : flow * chunk_locals :=
  let e := Z.min (start l + chunk_size) n in
  let cs := chunks l ++ [py_slice text (start l) e] in
  if e =? n then (Break, ChunkLocals (start l) (Some e) cs)
  else (Next, ChunkLocals (Z.max 0 (e - overlap)) (Some e) cs).

(** The [while] loop; [None] when [fuel] passes do not finish it. *)
Fixpoint chunk_while (fuel : nat) (text : pystr) (n chunk_size overlap : Z)
    (l : chunk_locals) : option chunk_locals :=
  if start l <? n then
    match fuel with
    | O => None
    | S fuel' =>
        match chunk_body text n chunk_size overlap l with
        | (Break, l') => Some l'
        | (Next, l') => chunk_while fuel' text n chunk_size overlap l'
        end
    end
  else Some l.

(** The text the loop works on: [(text or "").replace("\r\n", "\n").strip()]. *)
Definition normalize (text : option pystr) : pystr :=
  py_strip (replace_crlf (or_empty text)).

(** [chunk_text] up to its [return], keeping the final locals. *)
Definition chunk_text_run (fuel : nat) (text : option pystr)
    (chunk_size overlap : Z) : option chunk_locals :=
  let text := normalize text in
  match text with
  | [] => Some (ChunkLocals 0 None [])
  | _ =>
      chunk_while fuel text (len text) chunk_size overlap (ChunkLocals 0 None [])
  end.

Definition chunk_text_fuel (fuel : nat) (text : option pystr)
    (chunk_size overlap : Z) : option (list pystr) :=
  chunks <$> chunk_text_run fuel text chunk_size overlap.

(** [chunk_text]: the loop is given one pass per character of the
    normalized text plus one, which is enough whenever it ends at all
    (see [chunk_text_diverges]). *)
Definition chunk_text (text : option pystr) (chunk_size overlap : Z)
    : option (list pystr) :=
  chunk_text_fuel (S (length (normalize text))) text chunk_size overlap.

Definition CHUNK_SIZE : Z := 700.
Definition CHUNK_OVERLAP : Z := 120.

(** ** ScriptDetector: [_has_cjk], [_has_latin] *)

(** The character class [[\u4e00-\u9fff]]. *)
Definition is_cjk (c : N) : bool := ((0x4E00 <=? c) && (c <=? 0x9FFF))%N.

(** The character class [[A-Za-z]]. *)
Definition is_latin (c : N) : bool :=
  ((0x41 <=? c) && (c <=? 0x5A) || (0x61 <=? c) && (c <=? 0x7A))%N.

(** [bool(re.search(class, text or ''))] *)
Definition _has_cjk (text : option pystr) : bool :=
  existsb is_cjk (or_empty text).

Definition _has_latin (text : option pystr) : bool :=
  existsb is_latin (or_empty text).

(** ** DocumentLoader: [read_txt], [read_pdf], [read_docx], [iter_docs] *)

(** A directory entry as [docs_dir.glob("*")] yields it, with what the
    file system and the parsing libraries answer for it: [is_file()],
    [read_text(encoding="utf-8", errors="ignore")], the pages of
    [PdfReader(path)] with the result of [extract_text()] on each, and the
    [text] of the paragraphs of [Document(path)].  A call that raises
    on the file ([read_text] on a file that cannot be opened or read, a
    parser on a file it cannot parse) is [None]. *)
Record path := Path {
  name : pystr;
  is_file : bool;
  read_text : option pystr;
  pdf_pages : option (list (option pystr));
  docx_paragraphs : option (list (option pystr))
}.

(** A page dict [{"text": ..., "page": ...}]. *)
Record page := Page {
  text : pystr;
  page_no : Z
}.

(** A document dict [{"filename": ..., "filetype": ..., "pages": ...}]. *)
Record document := Document {
  filename : pystr;
  filetype : pystr;
  pages : list page
}.

(** [s.rfind(c)], scanning with the last hit remembered; [-1] if absent. *)
Fixpoint rfind_from (c : N) (s : pystr) (i found : Z) : Z :=
  match s with
  | [] => found
  | x :: r => rfind_from c r (i + 1) (if (x =? c)%N then i else found)
  end.

Definition rfind (s : pystr) (c : N) : Z := rfind_from c s 0 (-1).

(** [PurePath.suffix]: the last dot and what follows it, unless the dot
    starts or ends the name. *)
Definition suffix (p : path) : pystr :=
  let nm := name p in
  let i := rfind nm 0x2E%N in
  if (0 <? i) && (i <? len nm - 1) then py_slice nm i (len nm) else [].

(** [sep.join(parts)] *)
Fixpoint join (sep : pystr) (parts : list pystr) : pystr :=
  match parts with
  | [] => []
  | [s] => s
  | s :: rest => s ++ sep ++ join sep rest
  end.

(** Code point order on strings, [a < b]. *)
Fixpoint str_ltb (a b : pystr) : bool :=
  match a, b with
  | _, [] => false
  | [], _ :: _ => true
  | x :: a', y :: b' => (x <? y)%N || (x =? y)%N && str_ltb a' b'
  end.

(** The order [sorted] puts two entries of one directory in (POSIX
    paths: the names compared by code point).  [sorted] only asks [<];
    [p] stays before [q] unless [q < p]. *)
Definition path_le (p q : path) : Prop := str_ltb (name q) (name p) = false.

Global Instance path_le_dec p q : Decision (path_le p q).
Proof. unfold path_le. apply _. Defined.

(** [sorted(ps)]: a stable merge sort. *)
Definition sorted (ps : list path) : list path := merge_sort path_le ps.

Definition read_txt (p : path) : option pystr := read_text p.

Definition read_pdf (p : path) : option (list page) :=
  match pdf_pages p with
  | None => None
  | Some extracted =>
      Some (imap (fun i t => Page (or_empty t) (Z.of_nat i)) extracted)
  end.

Definition read_docx (p : path) : option (list page) :=
  match docx_paragraphs p with
  | None => None
  | Some paragraphs => Some [Page (join [0x0A%N] (omap id paragraphs)) 0]
  end.

Section Loader.

(** [str.lower()] maps [A-Z] to [a-z]; beyond ASCII it follows the
    Unicode case tables of the interpreter, which stay a parameter. *)
Variable unicode_lower : N -> pystr.

Definition lower_char (c : N) : pystr :=
  if (c <? 0x80)%N
  then [if ((0x41 <=? c) && (c <=? 0x5A))%N then (c + 0x20)%N else c]
  else unicode_lower c.

Definition lower (s : pystr) : pystr := flat_map lower_char s.

(** The body of [for p in sorted(docs_dir.glob("*"))], threading
    [items]; a reader that raises ends the loop with [None]. *)
Definition iter_docs_step (items : list document) (p : path)
    : option (list document) :=
  if negb (is_file p) then Some items
  else
    let suffix := lower (suffix p) in
    if decide (suffix = str ".txt") then
      t ← read_txt p;
      Some (items ++ [Document (name p) (str "text") [Page t 0]])
    else if decide (suffix = str ".pdf") then
      pgs ← read_pdf p; Some (items ++ [Document (name p) (str "pdf") pgs])
    else if decide (suffix = str ".docx") then
      pgs ← read_docx p; Some (items ++ [Document (name p) (str "docx") pgs])
    else Some items.

Fixpoint iter_docs_loop (ps : list path) (items : list document)
    : option (list document) :=
  match ps with
  | [] => Some items
  | p :: ps' =>
      items' ← iter_docs_step items p; iter_docs_loop ps' items'
  end.

(** [iter_docs]; the directory is given by its entries, in the order
    the file system lists them. *)
Definition iter_docs (docs_dir : list path) : option (list document) :=
  iter_docs_loop (sorted docs_dir) [].

End Loader.

(** ** IndexBuilder: [rebuild_index] *)

(** [str(i)] for an integer, as an f-string renders it. *)
Fixpoint uint_digits (u : Decimal.uint) : pystr :=
  match u with
  | Decimal.Nil => []
  | Decimal.D0 u => 0x30%N :: uint_digits u
  | Decimal.D1 u => 0x31%N :: uint_digits u
  | Decimal.D2 u => 0x32%N :: uint_digits u
  | Decimal.D3 u => 0x33%N :: uint_digits u
  | Decimal.D4 u => 0x34%N :: uint_digits u
  | Decimal.D5 u => 0x35%N :: uint_digits u
  | Decimal.D6 u => 0x36%N :: uint_digits u
  | Decimal.D7 u => 0x37%N :: uint_digits u
  | Decimal.D8 u => 0x38%N :: uint_digits u
  | Decimal.D9 u => 0x39%N :: uint_digits u
  end.

Definition str_of_int (z : Z) : pystr :=
  match Z.to_int z with
  | Decimal.Pos u => uint_digits u
  | Decimal.Neg u => 0x2D%N :: uint_digits u
  end.

(** [f"{filename}|p{page}|c{ch_i}"] *)
Definition chunk_id (filename : pystr) (page ch_i : Z) : pystr :=
  filename ++ str "|p" ++ str_of_int page ++ str "|c" ++ str_of_int ch_i.

(** The values a metadata dict holds. *)
Inductive meta_value :=
  | MStr (s : pystr)
  | MInt (z : Z).

Abbreviation metadata := (gmap pystr meta_value).

Definition chunk_metadata (d : document) (pg : page) (ch_i : Z) : metadata :=
  <[str "filename" := MStr (filename d)]>
  (<[str "filetype" := MStr (filetype d)]>
  (<[str "page" := MInt (page_no pg)]>
  (<[str "chunk_index" := MInt ch_i]> ∅))).

(** The three parallel lists [ids, documents, metadatas]; a collection
    of the store holds the same three columns. *)
Record columns := Columns {
  ids : list pystr;
  documents : list pystr;
  metadatas : list metadata
}.

(** The three [append]s of the innermost loop body. *)
Definition append_chunk (d : document) (pg : page) (acc : columns)
    (ch_i : nat) (ch : pystr) : columns :=
  Columns (ids acc ++ [chunk_id (filename d) (page_no pg) (Z.of_nat ch_i)])
          (documents acc ++ [ch])
          (metadatas acc ++ [chunk_metadata d pg (Z.of_nat ch_i)]).

(** [for ch_i, ch in enumerate(chs)], counting from [i]. *)
Fixpoint for_chunks (d : document) (pg : page) (i : nat) (chs : list pystr)
    (acc : columns) : columns :=
  match chs with
  | [] => acc
  | ch :: chs' => for_chunks d pg (S i) chs' (append_chunk d pg acc i ch)
  end.

(** [for page in d["pages"]] *)
Fixpoint for_pages (d : document) (pgs : list page) (acc : columns)
    : option columns :=
  match pgs with
  | [] => Some acc
  | pg :: pgs' =>
      chs ← chunk_text (Some (text pg)) CHUNK_SIZE CHUNK_OVERLAP;
      for_pages d pgs' (for_chunks d pg 0 chs acc)
  end.

(** [for d in docs] *)
Fixpoint for_docs (docs : list document) (acc : columns) : option columns :=
  match docs with
  | [] => Some acc
  | d :: docs' => acc' ← for_pages d (pages d) acc; for_docs docs' acc'
  end.

(** The persistent client: the collection named [COLLECTION_NAME], if
    there is one. *)
Record chroma := Chroma {
  collection : option columns
}.

(** [client.delete_collection(COLLECTION_NAME)] raises when there is
    no such collection. *)
Definition delete_collection (client : chroma) : option chroma :=
  match collection client with
  | Some _ => Some (Chroma None)
  | None => None
  end.

Definition get_or_create_collection (client : chroma) : chroma * columns :=
  match collection client with
  | Some col => (client, col)
  | None => (Chroma (Some (Columns [] [] [])), Columns [] [] [])
  end.

(** [col.add(ids=..., documents=..., metadatas=...)], for a batch the
    store accepts (a store that rejects the batch, as above its maximum
    batch size, is outside this model). *)
Definition col_add (col new : columns) : columns :=
  Columns (ids col ++ ids new) (documents col ++ documents new)
          (metadatas col ++ metadatas new).

(** [rebuild_index]: the client after the call and the returned pair. *)
Definition rebuild_index (unicode_lower : N -> pystr) (client : chroma)
    (docs_dir : list path) : option (chroma * (Z * Z)) :=
  let client :=
    match delete_collection client with
    | Some client' => client'
    | None => client
    end in
  let '(client, col) := get_or_create_collection client in
  docs ← iter_docs unicode_lower docs_dir;
  new ← for_docs docs (Columns [] [] []);
  let client :=
    match ids new with
    | [] => client
    | _ => Chroma (Some (col_add col new))
    end in
  Some (client, (Z.of_nat (length (ids new)), Z.of_nat (length docs))).

(** ** Retriever: [retrieve] *)

(** The dict [col.query] returns: under each key one list per query
    text; a key may be missing (a key that holds [None] is outside this
    model). *)
Record query_result := QueryResult {
  res_documents : option (list (list (option pystr)));
  res_metadatas : option (list (list (option metadata)))
}.

(** The collection handle, as far as [retrieve] uses it:
    [col.query(query_texts=..., n_results=...)], for a query the store
    answers. *)
Record collection_handle := CollectionHandle {
  query : list pystr -> Z -> query_result
}.

(** [res.get(key, [[]])[0]]; indexing an empty list raises. *)
Definition get_first {A} (v : option (list (list A))) : option (list A) :=
  match v with
  | None => Some []
  | Some [] => None
  | Some (x :: _) => Some x
  end.

(** Truthiness of a document ([None] and [""] are false) and of a
    metadata dict ([None] and [{}] are false). *)
Definition truthy_doc (d : option pystr) : bool :=
  match d with
  | Some (_ :: _) => true
  | _ => false
  end.

Definition truthy_meta (m : option metadata) : bool :=
  match m with
  | Some m => negb (bool_decide (m = ∅))
  | None => false
  end.

(** [for d, m in zip(docs, metas): if d and m: out.append((d, m))] *)
Fixpoint retrieve_loop (docs : list (option pystr))
    (metas : list (option metadata))
    (out : list (option pystr * option metadata))
    : list (option pystr * option metadata) :=
  match docs, metas with
  | d :: docs', m :: metas' =>
      retrieve_loop docs' metas'
        (if truthy_doc d && truthy_meta m then out ++ [(d, m)] else out)
  | _, _ => out
  end.

Definition retrieve (col : collection_handle) (question : pystr) (top_k : Z)
    : option (list (option pystr * option metadata)) :=
  let res := query col [question] top_k in
  docs ← get_first (res_documents res);
  metas ← get_first (res_metadatas res);
  Some (retrieve_loop docs metas []).

(** ** TranslationGate: [get_translators], [translate_text] *)

(** What calling a translation pipeline and reading
    [[0]["translation_text"]] off its answer gives. *)
Inductive provider_result :=
  | Returned (out : pystr)
  | Raised.

Definition provider := pystr -> provider_result.

(** What the process finds: whether [transformers] imported, and what
    constructing each pipeline yields ([None]: it raised). *)
Record translation_env := TranslationEnv {
  _TRANSLATION_OK : bool;
  pipeline_zh_en : option provider;
  pipeline_en_zh : option provider
}.

Definition get_translators (env : translation_env)
    : option provider * option provider :=
  if negb (_TRANSLATION_OK env) then (None, None)
  else
    match pipeline_zh_en env with
    | None => (None, None)
    | Some zh2en =>
        match pipeline_en_zh env with
        | None => (None, None)
        | Some en2zh => (Some zh2en, Some en2zh)
        end
    end.

Inductive direction := ZhEn | EnZh.

(** A provider invocation, with its argument. *)
Record call := Call {
  call_direction : direction;
  call_text : pystr
}.

(** [translate_text]: the returned string and the provider
    invocations made on the way. *)
Definition translate_text (env : translation_env) (text : option pystr)
    (target_lang : pystr) : pystr * list call :=
  let '(zh2en, en2zh) := get_translators env in
  let text := py_strip (or_empty text) in
  match text with
  | [] => (text, [])
  | _ =>
      let has_cjk := _has_cjk (Some text) in
      let has_latin := _has_latin (Some text) in
      if decide (target_lang = str "en") then
        if negb has_cjk || has_latin then (text, [])
        else
          match zh2en with
          | None => (text, [])
          | Some zh2en =>
              match zh2en text with
              | Returned out => (out, [Call ZhEn text])
              | Raised => (text, [Call ZhEn text])
              end
          end
      else if decide (target_lang = str "zh") then
        if negb has_latin || has_cjk then (text, [])
        else
          match en2zh with
          | None => (text, [])
          | Some en2zh =>
              match en2zh text with
              | Returned out => (out, [Call EnZh text])
              | Raised => (text, [Call EnZh text])
              end
          end
      else (text, [])
  end.

(** ** Notions the stated properties use *)

(** [ch[overlap:]] *)
Definition drop_overlap (overlap : Z) (ch : pystr) : pystr :=
  py_slice ch overlap (len ch).

(** Concatenation of the chunks with the overlap removed: the first
    chunk whole, every later chunk without its first [overlap]
    characters. *)
Definition reassemble (overlap : Z) (chs : list pystr) : pystr :=
  match chs with
  | [] => []
  | c :: rest => c ++ concat (map (drop_overlap overlap) rest)
  end.

(** Empty or made of whitespace only. *)
Definition blank (s : pystr) : bool := forallb py_isspace s.

(** The provider [translate_text] holds for a direction, if it is
    available. *)
Definition provider_for (env : translation_env) (d : direction)
    : option provider :=
  match d with
  | ZhEn => fst (get_translators env)
  | EnZh => snd (get_translators env)
  end.

(** The gate as the decision table words it, on the text as passed in:
    for a direction [d], with [src] saying whether the text shows the
    source script and [other] whether it shows the other one, the
    provider is asked when the text is single-script and the provider is
    there, and the stripped text is returned otherwise or when the
    provider raises. *)
Definition gate (env : translation_env) (d : direction) (src other : bool)
    (stripped : pystr) : pystr * list call :=
  if src && negb other then
    match provider_for env d with
    | Some p =>
        match p stripped with
        | Returned out => (out, [Call d stripped])
        | Raised => (stripped, [Call d stripped])
        end
    | None => (stripped, [])
    end
  else (stripped, []).

(** Three environments to evaluate the gate in: no [transformers]
    module; both pipelines built but raising on every call; both
    pipelines built and answering with a fixed string. *)
Definition env_unavailable : translation_env :=
  TranslationEnv false None None.

Definition env_raising : translation_env :=
  TranslationEnv true (Some (fun _ => Raised)) (Some (fun _ => Raised)).

(** The string of the two characters U+4F60 U+597D ("你好"). *)
Definition ni_hao : pystr := [0x4F60; 0x597D]%N.

Definition env_fixed : translation_env :=
  TranslationEnv true (Some (fun _ => Returned (str "hello")))
                      (Some (fun _ => Returned ni_hao)).

(** A pair that is kept: both components non-empty and non-null. *)
Definition both_truthy (dm : option pystr * option metadata) : bool :=
  truthy_doc (fst dm) && truthy_meta (snd dm).

(** The pairs of the two parallel arrays that are kept, in the order of
    the arrays. *)
Definition kept_pairs (docs : list (option pystr))
    (metas : list (option metadata)) : list (option pystr * option metadata) :=
  List.filter both_truthy (combine docs metas).

(** The metadata dict [{"page": 0}]. *)
Definition page_zero : metadata := <[str "page" := MInt 0]> ∅.

(** A store that answers every query with the same two entries,
    whatever [n_results] asks for. *)
Definition two_entry_store : collection_handle :=
  CollectionHandle (fun _ _ =>
    QueryResult (Some [[Some (str "a"); Some (str "b")]])
                (Some [[Some page_zero; Some page_zero]])).

(** Code point order on strings, [a <= b]. *)
Definition str_le (a b : pystr) : Prop := str_ltb b a = false.

Section LoaderNotions.

Variable unicode_lower : N -> pystr.

(** The extension of an entry, lowered for a case-insensitive
    comparison. *)
Definition extension (p : path) : pystr := lower unicode_lower (suffix p).

(** A regular file whose extension is one of the three supported. *)
Definition supported (p : path) : bool :=
  is_file p
  && (bool_decide (extension p = str ".txt")
      || bool_decide (extension p = str ".pdf")
      || bool_decide (extension p = str ".docx")).

(** The document a supported entry is loaded as. *)
Definition loaded (p : path) (d : document) : Prop :=
  filename d = name p
  /\ ((extension p = str ".txt" /\ filetype d = str "text"
       /\ exists t, read_txt p = Some t /\ pages d = [Page t 0])
      \/ (extension p = str ".pdf" /\ filetype d = str "pdf"
          /\ read_pdf p = Some (pages d))
      \/ (extension p = str ".docx" /\ filetype d = str "docx"
          /\ read_docx p = Some (pages d))).

(** A supported entry whose reader raises. *)
Definition reader_raises (p : path) : Prop :=
  supported p = true
  /\ ((extension p = str ".txt" /\ read_text p = None)
      \/ (extension p = str ".pdf" /\ pdf_pages p = None)
      \/ (extension p = str ".docx" /\ docx_paragraphs p = None)).

End LoaderNotions.

(** A directory to evaluate the loader on: a text file with an
    upper-case extension, a sub-directory named like a text file, a PDF of
    two pages (the second without extractable text), a file without a
    supported extension, a file named [.txt], and a DOCX file. *)
Definition plain_file (nm text : pystr) : path :=
  Path nm true (Some text) None None.

Definition demo_dir : list path :=
  [ plain_file (str "notes.TXT") (str "hello");
    Path (str "archive.txt") false None None None;
    Path (str "b.pdf") true (Some []) (Some [Some (str "page one"); None]) None;
    plain_file (str "image.png") [];
    plain_file (str ".txt") (str "hidden");
    Path (str "a.docx") true (Some []) None
         (Some [Some (str "p1"); None; Some (str "p2")]) ].

(** ASCII-only lowering, for evaluation. *)
Definition ascii_only (c : N) : pystr := [c].

(** The separator [|] of the id format. *)
Definition bar : N := 0x7C%N.

(** The id of a key (file name, page, chunk index). *)
Definition key_id (k : pystr * (Z * Z)) : pystr :=
  chunk_id k.1 k.2.1 k.2.2.

(** The window the chunker cuts at position [i] of its sequence: it
    starts [i] steps of [size - overlap] into the text and is [size]
    long unless the text ends before. *)
Definition window (T : pystr) (size overlap : Z) (i : nat) : pystr :=
  py_slice T (Z.of_nat i * (size - overlap))
             (Z.min (Z.of_nat i * (size - overlap) + size) (len T)).

(** What one stored row shows: the metadata dict holds the four keys,
    the id is the one its file name, page and chunk index spell, the
    document is a chunk of the configured size, and both the document and
    the metadata pass the truthiness test of [retrieve]. *)
Definition row_ok (id doc : pystr) (m : metadata) : Prop :=
  exists f ft p c,
    m !! str "filename" = Some (MStr f)
    /\ m !! str "filetype" = Some (MStr ft)
    /\ m !! str "page" = Some (MInt p)
    /\ m !! str "chunk_index" = Some (MInt c)
    /\ id = chunk_id f p c
    /\ 1 <= len doc <= CHUNK_SIZE
    /\ both_truthy (Some doc, Some m) = true.

(** A row stands in the columns: the id, the document and the metadata
    at one position of the three lists. *)
Definition stored (col : columns) (id doc : pystr) (m : metadata) : Prop :=
  exists k : nat,
    ids col !! k = Some id
    /\ documents col !! k = Some doc
    /\ metadatas col !! k = Some m.

(** The three lists have one length. *)
Definition aligned (col : columns) : Prop :=
  length (documents col) = length (ids col)
  /\ length (metadatas col) = length (ids col).

(** [rebuild_index] with the client kept when an exception leaves the
    function: the state of the store after the call, and the returned
    pair if the call returned. *)
Definition rebuild_index_run (unicode_lower : N -> pystr) (client : chroma)
    (docs_dir : list path) : chroma * option (Z * Z) :=
  let client :=
    match delete_collection client with
    | Some client' => client'
    | None => client
    end in
  let '(client, col) := get_or_create_collection client in
  match iter_docs unicode_lower docs_dir with
  | None => (client, None)
  | Some docs =>
      match for_docs docs (Columns [] [] []) with
      | None => (client, None)
      | Some new =>
          let client :=
            match ids new with
            | [] => client
            | _ => Chroma (Some (col_add col new))
            end in
          (client, Some (Z.of_nat (length (ids new)), Z.of_nat (length docs)))
      end
  end.

(** A directory with a PDF the parser raises on, and a store that
    already holds one row. *)
Definition broken_dir : list path :=
  [ plain_file (str "a.txt") (str "kept text");
    Path (str "bad.pdf") true (Some []) None None ].

(** A directory with a text file that cannot be read, sorting between
    two files that can. *)
Definition locked_dir : list path :=
  [ plain_file (str "z.txt") (str "last");
    Path (str "locked.TXT") true None None None;
    plain_file (str "a.txt") (str "first") ].

Definition old_client : chroma :=
  Chroma (Some (Columns [str "old.txt|p0|c0"] [str "old text"] [page_zero])).

(** Whether a string starts, or ends, with a character that
    [strip()] removes. *)
Definition starts_space (s : pystr) : bool :=
  match s with
  | c :: _ => py_isspace c
  | [] => false
  end.

Definition ends_space (s : pystr) : bool := starts_space (rev s).

(** ** Search: the snippet of a retrieved document *)

(** [s.replace(a, b)] for a one-character [a] and [b]. *)
Definition replace_char (a b : N) (s : pystr) : pystr :=
  map (fun c => if (c =? a)%N then b else c) s.

(** The snippet shown for a retrieved document:
    [(doc or "").replace("\n", " ").strip()], cut after 260 characters
    with an ellipsis appended. *)
Definition make_snippet (doc : option pystr) : pystr :=
  let snippet := py_strip (replace_char 0x0A 0x20 (or_empty doc)) in
  if 260 <? len snippet then py_slice snippet 0 260 ++ [0x2026%N]
  else snippet.

(** The text of one bullet, with the provider invocations made for
    it: the snippet goes through [translate_text] with target [en] when
    [LANG] is [en] and with target [zh] otherwise. *)
Definition bullet_text (env : translation_env) (LANG : pystr)
    (doc : option pystr) : pystr * list call :=
  let snippet := make_snippet doc in
  if decide (LANG = str "en") then translate_text env (Some snippet) (str "en")
  else translate_text env (Some snippet) (str "zh").

(** [for i, (doc, meta) in enumerate(pairs, start=1)], counting from
    [i] and threading [bullets] and the provider invocations. *)
Fixpoint bullets_loop (env : translation_env) (LANG : pystr) (i : Z)
    (pairs : list (option pystr * option metadata))
    (bullets : list (Z * pystr * option metadata)) (calls : list call)
    : list (Z * pystr * option metadata) * list call :=
  match pairs with
  | [] => (bullets, calls)
  | (doc, meta) :: rest =>
      let '(snippet, cs) := bullet_text env LANG doc in
      bullets_loop env LANG (i + 1) rest (bullets ++ [(i, snippet, meta)])
                   (calls ++ cs)
  end.

Definition search_bullets (env : translation_env) (LANG : pystr)
    (pairs : list (option pystr * option metadata))
    : list (Z * pystr * option metadata) * list call :=
  bullets_loop env LANG 1 pairs [] [].

(** ** Sidebar: [list_docs_status], [_docs_rows] *)

(** [s.lstrip(c)] for a one-character [c]. *)
Fixpoint lstrip_char (c : N) (s : pystr) : pystr :=
  match s with
  | [] => []
  | x :: r => if (x =? c)%N then lstrip_char c r else s
  end.

Section Listing.

Variable unicode_lower : N -> pystr.

(** Floating point numbers and local time are not modelled: the
    modification time a [stat()] call reports, the number
    [round(size / 1024, 1)] and the text
    [datetime.fromtimestamp(t).strftime("%Y-%m-%d %H:%M:%S")] are
    parameters.  A call that raises gives [None]. *)
Variables timestamp kilobytes : Type.
Variable stat : path -> option (timestamp * Z).
Variable format_time : timestamp -> option pystr.
Variable round_kb : Z -> kilobytes.

(** A row of [list_docs_status]. *)
Record status_row := StatusRow {
  status_file : pystr;
  status_type : pystr;
  status_size_kb : kilobytes;
  status_modified : pystr;
  status_mtime : timestamp
}.

(** [p.suffix.lower() not in {".txt", ".pdf", ".docx"}], negated. *)
Definition suffix_listed (p : path) : bool :=
  bool_decide (lower unicode_lower (suffix p)
               ∈ [str ".txt"; str ".pdf"; str ".docx"]).

(** The body of the loop of [list_docs_status], threading [rows]. *)
Definition list_docs_status_step (rows : list status_row) (p : path)
    : option (list status_row) :=
  if negb (is_file p) then Some rows
  else if negb (suffix_listed p) then Some rows
  else
    '(st_mtime, st_size) ← stat p;
    modified ← format_time st_mtime;
    Some (rows ++ [StatusRow (name p)
                     (lstrip_char 0x2E (lower unicode_lower (suffix p)))
                     (round_kb st_size) modified st_mtime]).

Fixpoint list_docs_status_loop (ps : list path) (rows : list status_row)
    : option (list status_row) :=
  match ps with
  | [] => Some rows
  | p :: ps' =>
      rows' ← list_docs_status_step rows p; list_docs_status_loop ps' rows'
  end.

(** [list_docs_status]; [None] for the directory stands for a path
    that does not exist or is not a directory. *)
Definition list_docs_status (docs_dir : option (list path))
    : option (list status_row) :=
  match docs_dir with
  | None => Some []
  | Some entries => list_docs_status_loop (sorted entries) []
  end.

(** A row of [_docs_rows]; [size_kb] is a number or the string ["?"],
    which is [None] here. *)
Record docs_row := DocsRow {
  docs_file : pystr;
  docs_type : pystr;
  docs_modified : pystr;
  docs_size_kb : option kilobytes
}.

(** The [try] block of [_docs_rows] with its [except]. *)
Definition stat_or_unknown (p : path) : pystr * option kilobytes :=
  match stat p with
  | Some (st_mtime, st_size) =>
      match format_time st_mtime with
      | Some mtime_str => (mtime_str, Some (round_kb st_size))
      | None => (str "?", None)
      end
  | None => (str "?", None)
  end.

(** [for p in sorted(folder.iterdir())] *)
Fixpoint _docs_rows_loop (ps : list path) (rows : list docs_row)
    : list docs_row :=
  match ps with
  | [] => rows
  | p :: ps' =>
      if negb (is_file p) then _docs_rows_loop ps' rows
      else
        let suffix := lower unicode_lower (suffix p) in
        if negb (bool_decide (suffix ∈ [str ".txt"; str ".pdf"; str ".docx"]))
        then _docs_rows_loop ps' rows
        else
          let '(mtime_str, size_kb) := stat_or_unknown p in
          _docs_rows_loop ps'
            (rows ++ [DocsRow (name p) (lstrip_char 0x2E suffix)
                              mtime_str size_kb])
  end.

(** What the file system answers about the folder [_docs_rows] is
    given: it does not exist or is not a directory; it is a directory
    that [iterdir()] raises on; it is a directory with these entries. *)
Inductive folder_state :=
  | NotADirectory
  | Unlistable
  | Listed (entries : list path).

(** [_docs_rows]: the call to [iterdir()] is outside the [try] block,
    so its exception leaves the function. *)
Definition _docs_rows (folder : folder_state) : option (list docs_row) :=
  match folder with
  | NotADirectory => Some []
  | Unlistable => None
  | Listed entries => Some (_docs_rows_loop (sorted entries) [])
  end.

End Listing.

(** File-system answers to evaluate the sidebar with: every [stat()]
    reports time 0 and 2048 bytes, times print as their number, and
    sizes are kept in whole kilobytes. *)
Definition demo_stat (p : path) : option (Z * Z) := Some (0, 2048).

(** A file system on which every [stat()] raises. *)
Definition failing_stat (p : path) : option (Z * Z) := None.

Definition demo_format_time (t : Z) : option pystr := Some (str_of_int t).

Definition demo_round_kb (size : Z) : Z := size / 1024.

(** ** Paths typed by the user: [resolve_user_path] *)

(** [s.lstrip(chars)] and [s.strip(chars)], the set [chars] given by
    its membership test. *)
Fixpoint lstrip_chars (f : N -> bool) (s : pystr) : pystr :=
  match s with
  | [] => []
  | c :: r => if f c then lstrip_chars f r else s
  end.

Definition strip_chars (f : N -> bool) (s : pystr) : pystr :=
  rev (lstrip_chars f (rev (lstrip_chars f s))).

(** Whether a string starts with a character of a set. *)
Definition starts_with (f : N -> bool) (s : pystr) : bool :=
  match s with
  | c :: _ => f c
  | [] => false
  end.

(** The path [resolve_user_path] returns, named by the string the
    [Path] is built from: that path itself when it is absolute, or the
    path joined to [BASE_DIR]. *)
Inductive resolved_path :=
  | Absolute (s : pystr)
  | UnderBase (s : pystr).

(** [Path(s).is_absolute()] for a POSIX path: the string starts with a
    slash. *)
Definition is_absolute (s : pystr) : bool := starts_with (N.eqb 0x2F) s.

Definition resolve_user_path (path_str : pystr) : resolved_path :=
  let p := strip_chars (N.eqb 0x27)
             (strip_chars (N.eqb 0x22) (py_strip path_str)) in
  if negb (is_absolute p) then UnderBase p else Absolute p.

(** The characters [resolve_user_path] strips: whitespace and the two
    quotes. *)
Definition is_wrapping (c : N) : bool :=
  py_isspace c || (c =? 0x22)%N || (c =? 0x27)%N.

(** * Properties *)

(** ** Slices *)

Lemma len_nonneg s : 0 <= len s.
Proof. unfold len. lia. Qed.

Lemma py_slice_inner s lo hi :
  0 <= lo <= hi -> hi <= len s ->
  py_slice s lo hi = take (Z.to_nat (hi - lo)) (drop (Z.to_nat lo) s).
Proof.
  intros Hlo Hhi. unfold py_slice, clamp_index.
  destruct (Z.ltb_spec lo 0); [lia|].
  destruct (Z.ltb_spec hi 0); [lia|].
  rewrite !Z.min_l by lia. reflexivity.
Qed.

Lemma py_slice_to_end s lo :
  0 <= lo <= len s -> py_slice s lo (len s) = drop (Z.to_nat lo) s.
Proof.
  intros H. rewrite py_slice_inner by lia.
  apply take_ge. rewrite length_drop. unfold len in *. lia.
Qed.

Lemma py_slice_all s : py_slice s 0 (len s) = s.
Proof. rewrite py_slice_to_end by (pose proof (len_nonneg s); lia). reflexivity. Qed.

Lemma py_slice_length s lo hi :
  0 <= lo <= hi -> hi <= len s -> len (py_slice s lo hi) = hi - lo.
Proof.
  intros Hlo Hhi. rewrite py_slice_inner by lia.
  unfold len in *. rewrite length_take, length_drop. lia.
Qed.

Lemma drop_overlap_app overlap c rest :
  0 <= overlap <= len c ->
  drop_overlap overlap c ++ rest = drop (Z.to_nat overlap) (c ++ rest).
Proof.
  intros H. unfold drop_overlap. rewrite py_slice_to_end by lia.
  rewrite drop_app_le; [reflexivity|]. unfold len in H. lia.
Qed.

(** ** The chunking loop *)

Lemma chunk_while_exit fuel T n size overlap l :
  n <= start l -> chunk_while fuel T n size overlap l = Some l.
Proof.
  intros H. destruct fuel; simpl;
    destruct (Z.ltb_spec (start l) n); try lia; reflexivity.
Qed.

Lemma chunk_while_step fuel T n size overlap l :
  start l < n ->
  chunk_while (S fuel) T n size overlap l =
  match chunk_body T n size overlap l with
  | (Break, l') => Some l'
  | (Next, l') => chunk_while fuel T n size overlap l'
  end.
Proof.
  intros H. simpl. destruct (Z.ltb_spec (start l) n); [reflexivity|lia].
Qed.

(** More fuel never changes a result already reached. *)
Lemma chunk_while_more_fuel fuel T n size overlap :
  forall l r fuel',
    chunk_while fuel T n size overlap l = Some r ->
    (fuel <= fuel')%nat ->
    chunk_while fuel' T n size overlap l = Some r.
Proof.
  induction fuel as [|fuel IH]; intros l r fuel' Hrun Hle.
  - simpl in Hrun. destruct (Z.ltb_spec (start l) n); [discriminate|].
    rewrite chunk_while_exit by lia. exact Hrun.
  - destruct (Z.ltb_spec (start l) n) as [Hlt|Hge].
    + destruct fuel' as [|fuel']; [lia|].
      rewrite chunk_while_step in * by assumption.
      destruct (chunk_body T n size overlap l) as [[|] l'];
        [apply IH; [exact Hrun|lia] | exact Hrun].
    + rewrite chunk_while_exit in * by lia. exact Hrun.
Qed.

(** Every pass through the body that continues moves [start] forward,
    whatever the state it starts from. *)
Lemma chunk_body_start_increases T n size overlap l l' :
  0 < size -> 0 <= overlap < size ->
  start l < n ->
  chunk_body T n size overlap l = (Next, l') ->
  start l < start l'.
Proof.
  intros Hsize Hov Hlt. unfold chunk_body.
  destruct (Z.eqb_spec (Z.min (start l + size) n) n) as [|Hne];
    [discriminate|].
  intros [= <-]. simpl. lia.
Qed.

Section ValidWindow.

Variables (T : pystr) (size overlap : Z).
Hypothesis Hsize : 0 < size.
Hypothesis Hoverlap : 0 <= overlap < size.

Let n := len T.

(** From a loop head inside the text the loop ends by [break], with
    [end == n]; the chunks it adds start with the window at [s] and,
    with the overlaps removed, spell the text from [s] on. *)
Lemma chunk_while_valid fuel :
  forall s e0 acc,
    0 <= s < n -> (Z.to_nat (n - s) <= fuel)%nat ->
    exists s' rest,
      chunk_while fuel T n size overlap (ChunkLocals s e0 acc) =
        Some (ChunkLocals s' (Some n)
                (acc ++ py_slice T s (Z.min (s + size) n) :: rest))
      /\ py_slice T s (Z.min (s + size) n)
           ++ concat (map (drop_overlap overlap) rest)
         = drop (Z.to_nat s) T.
Proof using Hsize Hoverlap.
  induction fuel as [|fuel IH]; intros s e0 acc Hs Hfuel; [lia|].
  rewrite chunk_while_step by (simpl; lia).
  unfold chunk_body; simpl.
  destruct (Z.eqb_spec (Z.min (s + size) n) n) as [Heq|Hne].
  - exists s, []. rewrite Heq. split; [reflexivity|].
    simpl. rewrite app_nil_r. apply py_slice_to_end. fold n. lia.
  - assert (Hmin : Z.min (s + size) n = s + size) by lia.
    rewrite Hmin in *.
    assert (Hnext : Z.max 0 (s + size - overlap) = s + size - overlap) by lia.
    rewrite Hnext.
    destruct (IH (s + size - overlap) (Some (s + size))
                (acc ++ [py_slice T s (s + size)])) as (s' & rest & Hrun & Hcat);
      [lia|lia|].
    exists s', (py_slice T (s + size - overlap)
                  (Z.min (s + size - overlap + size) n) :: rest).
    split.
    + rewrite Hrun. rewrite <- app_assoc. reflexivity.
    + simpl. rewrite drop_overlap_app.
      2:{ rewrite py_slice_length by (fold n; lia). lia. }
      rewrite Hcat. rewrite drop_drop.
      rewrite py_slice_inner by (fold n; lia).
      replace (Z.to_nat (s + size - overlap) + Z.to_nat overlap)%nat
        with (Z.to_nat s + Z.to_nat (s + size - s))%nat by lia.
      rewrite <- drop_drop. apply take_drop.
Qed.

End ValidWindow.

(** Outside the precondition: with a step [size - overlap] that is not
    positive, a window that does not reach the end of the text is
    followed by another one that does not either. *)
Lemma chunk_while_stuck T n size overlap fuel :
  forall l,
    size - overlap <= 0 -> 0 <= start l < n -> start l + size < n ->
    chunk_while fuel T n size overlap l = None.
Proof.
  induction fuel as [|fuel IH]; intros l Hstep Hs Hend.
  - simpl. destruct (Z.ltb_spec (start l) n); [reflexivity|lia].
  - rewrite chunk_while_step by lia. unfold chunk_body.
    destruct (Z.eqb_spec (Z.min (start l + size) n) n); [lia|].
    apply IH; simpl; lia.
Qed.

(** With a positive step the loop ends within [n - start] passes,
    also for a [size] that is not positive. *)
Lemma chunk_while_positive_step T n size overlap fuel :
  forall l,
    0 < size - overlap -> 0 <= start l ->
    (Z.to_nat (n - start l) <= fuel)%nat ->
    is_Some (chunk_while fuel T n size overlap l).
Proof.
  induction fuel as [|fuel IH]; intros l Hstep Hs Hfuel.
  - rewrite chunk_while_exit by lia. eauto.
  - destruct (Z.ltb_spec (start l) n) as [Hlt|Hge];
      [|rewrite chunk_while_exit by lia; eauto].
    rewrite chunk_while_step by lia. unfold chunk_body.
    destruct (Z.eqb_spec (Z.min (start l + size) n) n); [eauto|].
    apply IH; simpl; lia.
Qed.

(** [chunk_text] is [None] only when the Python loop never ends. *)
Lemma chunk_text_diverges text size overlap :
  chunk_text text size overlap = None ->
  forall fuel, chunk_text_fuel fuel text size overlap = None.
Proof.
  unfold chunk_text, chunk_text_fuel, chunk_text_run.
  set (T := normalize text). intros Hnone fuel.
  destruct T as [|c T'] eqn:HT; [discriminate|]. rewrite <- HT in *.
  assert (Hn : 0 < len T) by (rewrite HT; unfold len; simpl; lia).
  destruct (Z.le_gt_cases (len T) size) as [Hbig|Hsmall].
  { exfalso. rewrite chunk_while_step in Hnone by (simpl; lia).
    unfold chunk_body in Hnone. cbn [start] in Hnone.
    destruct (Z.eqb_spec (Z.min (0 + size) (len T)) (len T));
      [discriminate|lia]. }
  destruct (Z.le_gt_cases (size - overlap) 0) as [Hstep|Hstep].
  - rewrite chunk_while_stuck by (simpl; lia). reflexivity.
  - exfalso.
    destruct (chunk_while_positive_step T (len T) size overlap
                (S (length T)) (ChunkLocals 0 None [])) as [r Hr];
      [lia|simpl; lia|simpl; unfold len; lia|].
    rewrite Hr in Hnone. discriminate.
Qed.

(** ** Normalization *)

Lemma lstrip_length s : (length (lstrip s) <= length s)%nat.
Proof.
  induction s as [|c s IH]; simpl; [lia|].
  destruct (py_isspace c); simpl; lia.
Qed.

Lemma py_strip_length s : (length (py_strip s) <= length s)%nat.
Proof.
  unfold py_strip, rstrip. rewrite length_rev.
  etransitivity; [apply lstrip_length|]. rewrite length_rev.
  apply lstrip_length.
Qed.

Lemma replace_crlf_length s : (length (replace_crlf s) <= length s)%nat.
Proof.
  assert (H : forall k s, (length s <= k)%nat ->
                          (length (replace_crlf s) <= length s)%nat).
  { clear s. induction k as [|k IH]; intros [|c [|d r]] Hk;
      simpl in *; try lia.
    destruct ((c =? 13)%N && (d =? 10)%N); simpl.
    - specialize (IH r). lia.
    - specialize (IH (d :: r)). simpl in IH. lia. }
  apply (H (length s)). lia.
Qed.

Lemma normalize_length text :
  (length (normalize text) <= length (or_empty text))%nat.
Proof.
  unfold normalize. etransitivity; [apply py_strip_length|].
  apply replace_crlf_length.
Qed.

(** ** Chunker: stated properties *)

(** With a positive step [size - overlap] the call returns. *)
Lemma chunk_text_returns (text : option pystr) (size overlap : Z) :
  0 < size - overlap -> is_Some (chunk_text text size overlap).
Proof.
  intros Hstep. unfold chunk_text, chunk_text_fuel, chunk_text_run.
  destruct (normalize text) as [|c T'] eqn:HT; [simpl; eauto|].
  set (T := c :: T') in *.
  destruct (chunk_while_positive_step T (len T) size overlap (S (length T))
              (ChunkLocals 0 None [])) as [r Hr];
    [exact Hstep|cbn [start]; lia|cbn [start]; unfold len; lia|].
  rewrite Hr. simpl. eauto.
Qed.

(** C1, as amended.  For every input text and every [size > 0],
    [0 <= overlap < size], [chunk_text] returns, and concatenating its
    chunks with the overlap removed (the first chunk whole, every later
    chunk without its first [overlap] characters) gives back the
    normalized text, that is the input after CRLF→LF replacement and
    stripping; when the normalized text is not empty, the end position of
    the last chunk is the length of the normalized text. *)
Theorem chunk_text_coverage (text : option pystr) (size overlap : Z) :
  0 < size -> 0 <= overlap < size ->
  exists l,
    chunk_text_run (S (length (normalize text))) text size overlap = Some l
    /\ chunk_text text size overlap = Some (chunks l)
    /\ reassemble overlap (chunks l) = normalize text
    /\ (normalize text <> [] -> end_ l = Some (len (normalize text))).
Proof.
  intros Hsize Hov. unfold chunk_text, chunk_text_fuel, chunk_text_run.
  destruct (normalize text) as [|c T'] eqn:HT.
  - eexists. split; [reflexivity|]. repeat split. intros H. now elim H.
  - set (T := c :: T') in *.
    destruct (chunk_while_valid T size overlap Hsize Hov (S (length T))
                0 None []) as (s' & rest & Hrun & Hcat).
    + unfold len, T. simpl. lia.
    + unfold len. lia.
    + rewrite Hrun. eexists. split; [reflexivity|]. simpl.
      repeat split. exact Hcat.
Qed.

Lemma chunk_text_coverage_witness :
  0 < 4 /\ 0 <= 1 < 4 /\
  exists l,
    chunk_text_run (S (length (normalize (Some (str " hello world")))))
      (Some (str " hello world")) 4 1 = Some l
    /\ chunk_text (Some (str " hello world")) 4 1 = Some (chunks l)
    /\ reassemble 1 (chunks l) = normalize (Some (str " hello world"))
    /\ (normalize (Some (str " hello world")) <> [] ->
        end_ l = Some (len (normalize (Some (str " hello world"))))).
Proof.
  split; [lia|]. split; [lia|].
  apply (chunk_text_coverage (Some (str " hello world")) 4 1); lia.
Defined.

(** C1, as stated, fails on an input with surrounding whitespace: on
    [" a"] with size 1 and overlap 0 the only chunk is ["a"], so the
    chunks do not spell the input and the last end position is 1, not
    the input length 2. *)
Lemma chunk_text_padded_input :
  str " a" <> [] /\ 0 < 1 /\ 0 <= 0 < 1
  /\ chunk_text (Some (str " a")) 1 0 = Some [str "a"]
  /\ forall fuel l,
       chunk_text_run fuel (Some (str " a")) 1 0 = Some l ->
       reassemble 0 (chunks l) <> str " a"
       /\ end_ l <> Some (len (str " a")).
Proof.
  split; [discriminate|]. split; [lia|]. split; [lia|].
  split; [reflexivity|].
  intros [|fuel] l H; vm_compute in H; [discriminate|].
  injection H as <-. split; vm_compute; discriminate.
Qed.

(** C3.  Under [size > 0] and [0 <= overlap < size], [chunk_text]
    returns on every input text (and with any larger bound on the number
    of passes it returns the same chunks), and every pass of the loop
    that does not leave it strictly increases [start]. *)
Theorem chunk_text_terminates (text : option pystr) (size overlap : Z) :
  0 < size -> 0 <= overlap < size ->
  (exists chs,
      chunk_text text size overlap = Some chs
      /\ forall fuel, (S (length (normalize text)) <= fuel)%nat ->
                      chunk_text_fuel fuel text size overlap = Some chs)
  /\ (forall l l',
         start l < len (normalize text) ->
         chunk_body (normalize text) (len (normalize text)) size overlap l
           = (Next, l') ->
         start l < start l').
Proof.
  intros Hsize Hov. split.
  - destruct (chunk_text_returns text size overlap) as [chs Hret]; [lia|].
    exists chs. split; [exact Hret|].
    intros fuel Hfuel. unfold chunk_text, chunk_text_fuel, chunk_text_run in *.
    destruct (normalize text) as [|c T'] eqn:HT; [exact Hret|].
    destruct (chunk_while (S (length (c :: T'))) (c :: T') (len (c :: T'))
                size overlap (ChunkLocals 0 None [])) as [l|] eqn:Hrun;
      [|discriminate].
    erewrite chunk_while_more_fuel; [exact Hret|exact Hrun|exact Hfuel].
  - intros l l'. apply chunk_body_start_increases; assumption.
Qed.

Lemma chunk_text_terminates_witness :
  0 < 700 /\ 0 <= 120 < 700 /\
  ((exists chs,
      chunk_text (Some (str "Returns accepted within 30 days.")) 700 120
        = Some chs
      /\ forall fuel,
           (S (length (normalize
                 (Some (str "Returns accepted within 30 days.")))) <= fuel)%nat ->
           chunk_text_fuel fuel
             (Some (str "Returns accepted within 30 days.")) 700 120 = Some chs)
   /\ (forall l l',
         start l < len (normalize (Some (str "Returns accepted within 30 days."))) ->
         chunk_body (normalize (Some (str "Returns accepted within 30 days.")))
           (len (normalize (Some (str "Returns accepted within 30 days."))))
           700 120 l = (Next, l') ->
         start l < start l')).
Proof.
  split; [lia|]. split; [lia|].
  apply (chunk_text_terminates
           (Some (str "Returns accepted within 30 days.")) 700 120); lia.
Defined.

(** C7, as amended.  For every input text whose normalized form
    (CRLF→LF, then stripped) is not empty and has length [n <= size],
    [chunk_text] returns exactly one chunk, equal to the normalized
    text, whatever the overlap. *)
Theorem chunk_text_single_chunk (text : option pystr) (size overlap : Z) :
  normalize text <> [] -> len (normalize text) <= size ->
  chunk_text text size overlap = Some [normalize text].
Proof.
  intros Hne Hlen. unfold chunk_text, chunk_text_fuel, chunk_text_run.
  destruct (normalize text) as [|c T'] eqn:HT; [now elim Hne|].
  set (T := c :: T') in *.
  assert (Hpos : 0 < len T) by (unfold len, T; simpl; lia).
  rewrite chunk_while_step by (simpl; lia).
  unfold chunk_body. cbn [start chunks].
  destruct (Z.eqb_spec (Z.min (0 + size) (len T)) (len T)) as [->|]; [|lia].
  simpl. rewrite py_slice_all. reflexivity.
Qed.

Lemma chunk_text_single_chunk_witness :
  normalize (Some (str "  policy text ")) <> []
  /\ len (normalize (Some (str "  policy text "))) <= 700
  /\ chunk_text (Some (str "  policy text ")) 700 120
     = Some [normalize (Some (str "  policy text "))].
Proof.
  assert (Hne : normalize (Some (str "  policy text ")) <> [])
    by (vm_compute; discriminate).
  assert (Hlen : len (normalize (Some (str "  policy text "))) <= 700)
    by (vm_compute; discriminate).
  split; [exact Hne|]. split; [exact Hlen|].
  apply (chunk_text_single_chunk (Some (str "  policy text ")) 700 120 Hne Hlen).
Defined.

(** C7, as stated, fails in two ways: the empty text has length
    [0 <= size] and yields no chunk at all; and a text with a CRLF pair
    yields a chunk with the pair replaced, which is not the trimmed
    input. *)
Lemma chunk_text_short_input :
  (len [] <= 1 /\ chunk_text (Some []) 1 0 = Some [])
  /\ (len [97; 13; 10; 98]%N <= 4
      /\ chunk_text (Some [97; 13; 10; 98]%N) 4 0 = Some [[97; 10; 98]%N]
      /\ [97; 10; 98]%N <> py_strip [97; 13; 10; 98]%N).
Proof.
  repeat split; try (vm_compute; discriminate).
Qed.

(** ** Script detection and stripping *)

Lemma isspace_not_cjk c : py_isspace c = true -> is_cjk c = false.
Proof.
  unfold py_isspace, is_cjk. intros H.
  destruct ((19968 <=? c)%N && (c <=? 40959)%N) eqn:E; [|reflexivity].
  exfalso.
  repeat rewrite ?orb_true_iff, ?andb_true_iff, ?N.leb_le, ?N.eqb_eq in *.
  lia.
Qed.

Lemma isspace_not_latin c : py_isspace c = true -> is_latin c = false.
Proof.
  unfold py_isspace, is_latin. intros H.
  destruct ((65 <=? c)%N && (c <=? 90)%N || (97 <=? c)%N && (c <=? 122)%N)
    eqn:E; [|reflexivity].
  exfalso.
  repeat rewrite ?orb_true_iff, ?andb_true_iff, ?N.leb_le, ?N.eqb_eq in *.
  lia.
Qed.

Section StripKeeps.

(** A character class disjoint from whitespace is met in a string
    exactly when it is met in the stripped string. *)
Variable P : N -> bool.
Hypothesis P_not_space : forall c, py_isspace c = true -> P c = false.

Lemma lstrip_existsb s : existsb P (lstrip s) = existsb P s.
Proof using P_not_space.
  induction s as [|c s IH]; simpl; [reflexivity|].
  destruct (py_isspace c) eqn:E; [|reflexivity].
  rewrite (P_not_space c E). exact IH.
Qed.

Lemma existsb_rev_eq (s : pystr) : existsb P (rev s) = existsb P s.
Proof.
  induction s as [|c s IH]; simpl; [reflexivity|].
  rewrite existsb_app, IH. simpl. rewrite orb_false_r. apply orb_comm.
Qed.

Lemma py_strip_existsb s : existsb P (py_strip s) = existsb P s.
Proof using P_not_space.
  unfold py_strip, rstrip.
  rewrite existsb_rev_eq, lstrip_existsb, existsb_rev_eq.
  apply lstrip_existsb.
Qed.

End StripKeeps.

Lemma has_cjk_strip text :
  _has_cjk (Some (py_strip (or_empty text))) = _has_cjk text.
Proof. apply (py_strip_existsb is_cjk isspace_not_cjk). Qed.

Lemma has_latin_strip text :
  _has_latin (Some (py_strip (or_empty text))) = _has_latin text.
Proof. apply (py_strip_existsb is_latin isspace_not_latin). Qed.

(** Blank text: empty or made of whitespace only. *)
Lemma lstrip_blank s : blank s = true -> lstrip s = [].
Proof.
  induction s as [|c s IH]; simpl; [reflexivity|].
  destruct (py_isspace c); [exact IH|discriminate].
Qed.

Lemma py_strip_blank s : blank s = true -> py_strip s = [].
Proof.
  intros H. unfold py_strip. rewrite (lstrip_blank s H). reflexivity.
Qed.

(** ** TranslationGate *)

(** [translate_text] follows the decision table, read on the text as
    passed in and answered on the stripped text. *)
Lemma translate_text_gate_form env text target :
  translate_text env text target =
  if decide (target = str "en") then
    gate env ZhEn (_has_cjk text) (_has_latin text) (py_strip (or_empty text))
  else if decide (target = str "zh") then
    gate env EnZh (_has_latin text) (_has_cjk text) (py_strip (or_empty text))
  else (py_strip (or_empty text), []).
Proof.
  unfold translate_text, gate, provider_for.
  rewrite <- (has_cjk_strip text), <- (has_latin_strip text).
  destruct (get_translators env) as [zh2en en2zh]. simpl fst. simpl snd.
  destruct (py_strip (or_empty text)) as [|c t] eqn:Ht.
  - repeat case_decide; reflexivity.
  - set (s := c :: t).
    destruct (_has_cjk (Some s)), (_has_latin (Some s));
      repeat case_decide; simpl; reflexivity.
Qed.

Lemma en_is_not_zh : str "zh" <> str "en".
Proof. vm_compute. discriminate. Qed.

(** C2, as amended.  For every input text: with target [en] it
    translates zh→en exactly when [has_cjk(text)] is true,
    [has_latin(text)] is false and the zh→en provider is available: then,
    and only then, the provider is invoked, once and on the stripped text,
    and what [translate_text] returns is the provider's answer (the
    stripped text if the provider raises); with target [zh] it translates
    en→zh in the same way exactly when [has_latin(text)] is true,
    [has_cjk(text)] is false and the en→zh provider is available; in every
    other case no provider is invoked and the result is the text with
    leading and trailing whitespace stripped. *)
Theorem translate_text_decision (env : translation_env) (text : option pystr) :
  ((forall zh2en,
       _has_cjk text = true -> _has_latin text = false ->
       provider_for env ZhEn = Some zh2en ->
       translate_text env text (str "en")
       = (match zh2en (py_strip (or_empty text)) with
          | Returned out => out
          | Raised => py_strip (or_empty text)
          end,
          [Call ZhEn (py_strip (or_empty text))]))
   /\ (snd (translate_text env text (str "en"))
         = [Call ZhEn (py_strip (or_empty text))]
       <-> _has_cjk text = true /\ _has_latin text = false
           /\ is_Some (provider_for env ZhEn))
   /\ (snd (translate_text env text (str "en"))
         = [Call ZhEn (py_strip (or_empty text))]
       \/ translate_text env text (str "en")
          = (py_strip (or_empty text), [])))
  /\ ((forall en2zh,
         _has_latin text = true -> _has_cjk text = false ->
         provider_for env EnZh = Some en2zh ->
         translate_text env text (str "zh")
         = (match en2zh (py_strip (or_empty text)) with
            | Returned out => out
            | Raised => py_strip (or_empty text)
            end,
            [Call EnZh (py_strip (or_empty text))]))
     /\ (snd (translate_text env text (str "zh"))
           = [Call EnZh (py_strip (or_empty text))]
         <-> _has_latin text = true /\ _has_cjk text = false
             /\ is_Some (provider_for env EnZh))
     /\ (snd (translate_text env text (str "zh"))
           = [Call EnZh (py_strip (or_empty text))]
         \/ translate_text env text (str "zh")
            = (py_strip (or_empty text), []))).
Proof.
  rewrite !translate_text_gate_form.
  destruct (decide (str "en" = str "en")) as [_|Hne]; [|now elim Hne].
  destruct (decide (str "zh" = str "en")) as [Heq|_];
    [now elim en_is_not_zh|].
  destruct (decide (str "zh" = str "zh")) as [_|Hne]; [|now elim Hne].
  unfold gate.
  generalize (provider_for env ZhEn) (provider_for env EnZh).
  intros pz pe.
  assert (Hanswer : forall (d : direction) (q : provider) t,
             match q t with
             | Returned out => (out, [Call d t])
             | Raised => (t, [Call d t])
             end
             = (match q t with Returned out => out | Raised => t end,
                [Call d t])).
  { intros d q t. destruct (q t); reflexivity. }
  split; (split; [|split]).
  - intros zh2en -> -> ->. simpl. apply Hanswer.
  - destruct (_has_cjk text), (_has_latin text), pz as [zh2en|]; simpl;
      try destruct (zh2en (py_strip (or_empty text)));
      simpl; split; eauto; try congruence;
      try (intros (_ & _ & [x Hx]); discriminate Hx);
      try (intros (H1 & H2 & _); congruence).
  - destruct (_has_cjk text), (_has_latin text), pz as [zh2en|]; simpl;
      try destruct (zh2en (py_strip (or_empty text)));
      simpl; auto.
  - intros en2zh -> -> ->. simpl. apply Hanswer.
  - destruct (_has_latin text), (_has_cjk text), pe as [en2zh|]; simpl;
      try destruct (en2zh (py_strip (or_empty text)));
      simpl; split; eauto; try congruence;
      try (intros (_ & _ & [x Hx]); discriminate Hx);
      try (intros (H1 & H2 & _); congruence).
  - destruct (_has_latin text), (_has_cjk text), pe as [en2zh|]; simpl;
      try destruct (en2zh (py_strip (or_empty text)));
      simpl; auto.
Qed.

(** C2, as stated, fails on a text with surrounding whitespace: with
    target [en], [" Hello"] shows no CJK character, so it is one of the
    "other cases", and what comes back is ["Hello"], not the text
    unchanged. *)
Lemma translate_text_padded_latin :
  _has_cjk (Some (str " Hello")) = false
  /\ translate_text env_fixed (Some (str " Hello")) (str "en")
     = (str "Hello", [])
  /\ str "Hello" <> str " Hello".
Proof. repeat split; vm_compute; discriminate. Qed.

(** The gate returns the stripped text unless a provider returned. *)
Lemma gate_passthrough env d src other t :
  src = false \/ other = true \/ provider_for env d = None
  \/ (exists p, provider_for env d = Some p /\ p t = Raised) ->
  fst (gate env d src other t) = t.
Proof.
  unfold gate. intros H.
  destruct src, other; simpl; try reflexivity.
  destruct (provider_for env d) as [p|]; [|reflexivity].
  destruct (p t) eqn:Hp; [|reflexivity].
  destruct H as [H|[H|[H|(q & Hq & Hr)]]]; try discriminate.
  injection Hq as <-. congruence.
Qed.

Lemma gate_calls env d src other t :
  snd (gate env d src other t) = [] \/ snd (gate env d src other t) = [Call d t].
Proof.
  unfold gate. destruct (src && negb other); [|now left].
  destruct (provider_for env d) as [p|]; [|now left].
  destruct (p t); now right.
Qed.

(** C6, as amended.  For every input text and target language, if
    the provider that [translate_text] invokes raises, [translate_text]
    still returns, and what it returns is the input with leading and
    trailing whitespace stripped. *)
Theorem translate_text_provider_raises (env : translation_env)
    (text : option pystr) (target : pystr) (d : direction) (arg : pystr)
    (p : provider) :
  snd (translate_text env text target) = [Call d arg] ->
  provider_for env d = Some p ->
  p arg = Raised ->
  fst (translate_text env text target) = py_strip (or_empty text).
Proof.
  rewrite translate_text_gate_form. intros Hcall Hp Hraise.
  repeat case_decide; [| |reflexivity].
  - destruct (gate_calls env ZhEn (_has_cjk text) (_has_latin text)
                (py_strip (or_empty text))) as [Hg|Hg];
      rewrite Hg in Hcall; [discriminate|]. injection Hcall as <- <-.
    apply gate_passthrough. right; right; right. eauto.
  - destruct (gate_calls env EnZh (_has_latin text) (_has_cjk text)
                (py_strip (or_empty text))) as [Hg|Hg];
      rewrite Hg in Hcall; [discriminate|]. injection Hcall as <- <-.
    apply gate_passthrough. right; right; right. eauto.
Qed.

Lemma translate_text_provider_raises_witness :
  snd (translate_text env_raising (Some ni_hao) (str "en"))
    = [Call ZhEn ni_hao]
  /\ provider_for env_raising ZhEn = Some (fun _ => Raised)
  /\ (fun _ : pystr => Raised) ni_hao = Raised
  /\ fst (translate_text env_raising (Some ni_hao) (str "en"))
     = py_strip (or_empty (Some ni_hao)).
Proof.
  assert (H1 : snd (translate_text env_raising (Some ni_hao)
                      (str "en")) = [Call ZhEn ni_hao])
    by reflexivity.
  assert (H2 : provider_for env_raising ZhEn = Some (fun _ => Raised))
    by reflexivity.
  split; [exact H1|]. split; [exact H2|]. split; [reflexivity|].
  exact (translate_text_provider_raises env_raising (Some ni_hao)
           (str "en") ZhEn ni_hao (fun _ => Raised)
           H1 H2 eq_refl).
Defined.

(** C6, as stated, fails on a text with surrounding whitespace: the
    zh→en provider is invoked on [" 你好"] and raises, and what comes
    back is ["你好"], not the original text. *)
Lemma translate_text_raise_padded :
  translate_text env_raising (Some (str " " ++ ni_hao)) (str "en")
    = (ni_hao, [Call ZhEn ni_hao])
  /\ provider_for env_raising ZhEn = Some (fun _ => Raised)
  /\ ni_hao <> (str " " ++ ni_hao).
Proof. repeat split. vm_compute. discriminate. Qed.

(** C8, as amended.  For every empty or whitespace-only input text
    and every target language, [translate_text] invokes no provider and
    returns the empty string. *)
Theorem translate_text_blank (env : translation_env) (text : option pystr)
    (target : pystr) :
  blank (or_empty text) = true ->
  translate_text env text target = ([], []).
Proof.
  intros Hblank. unfold translate_text.
  destruct (get_translators env) as [zh2en en2zh].
  rewrite (py_strip_blank _ Hblank). reflexivity.
Qed.

Lemma translate_text_blank_witness :
  blank (or_empty (Some (str "   "))) = true
  /\ translate_text env_fixed (Some (str "   ")) (str "zh") = ([], []).
Proof.
  split; [reflexivity|].
  apply (translate_text_blank env_fixed (Some (str "   ")) (str "zh")).
  reflexivity.
Defined.

(** C8, as stated, fails on a whitespace-only text: one space comes
    back as the empty string, not unchanged. *)
Lemma translate_text_blank_not_unchanged :
  blank (str " ") = true
  /\ fst (translate_text env_fixed (Some (str " ")) (str "zh")) = []
  /\ [] <> str " ".
Proof. repeat split. vm_compute. discriminate. Qed.

(** C10.  On every passthrough branch of [translate_text] (a target
    language other than [en] and [zh]; for target [en]: no CJK character,
    a Latin letter as well, no zh→en provider, or a zh→en provider that
    raises; likewise for target [zh]) the result is the input with
    leading and trailing whitespace stripped; and a blank input yields
    the empty string. *)
Theorem translate_text_passthrough (env : translation_env)
    (text : option pystr) (target : pystr) :
  (target <> str "en" /\ target <> str "zh")
  \/ (target = str "en"
      /\ (_has_cjk text = false \/ _has_latin text = true
          \/ provider_for env ZhEn = None
          \/ exists p, provider_for env ZhEn = Some p
                       /\ p (py_strip (or_empty text)) = Raised))
  \/ (target = str "zh"
      /\ (_has_latin text = false \/ _has_cjk text = true
          \/ provider_for env EnZh = None
          \/ exists p, provider_for env EnZh = Some p
                       /\ p (py_strip (or_empty text)) = Raised)) ->
  fst (translate_text env text target) = py_strip (or_empty text)
  /\ (blank (or_empty text) = true ->
      fst (translate_text env text target) = []).
Proof.
  intros H. split.
  - rewrite translate_text_gate_form.
    destruct H as [[Hen Hzh]|[[-> H]|[-> H]]].
    + repeat case_decide; try contradiction. reflexivity.
    + case_decide; [|contradiction]. now apply gate_passthrough.
    + destruct (decide (str "zh" = str "en")) as [Heq|_];
        [now elim en_is_not_zh|].
      case_decide; [|contradiction]. now apply gate_passthrough.
  - intros Hblank. unfold translate_text.
    destruct (get_translators env) as [zh2en en2zh].
    rewrite (py_strip_blank _ Hblank). reflexivity.
Qed.

Lemma translate_text_passthrough_witness :
  ((str "en" <> str "en" /\ str "en" <> str "zh")
   \/ (str "en" = str "en"
       /\ (_has_cjk (Some (str " Hello " ++ ni_hao)) = false
           \/ _has_latin (Some (str " Hello " ++ ni_hao)) = true
           \/ provider_for env_fixed ZhEn = None
           \/ exists p, provider_for env_fixed ZhEn = Some p
                /\ p (py_strip (or_empty (Some (str " Hello " ++ ni_hao)))) = Raised))
   \/ (str "en" = str "zh"
       /\ (_has_latin (Some (str " Hello " ++ ni_hao)) = false
           \/ _has_cjk (Some (str " Hello " ++ ni_hao)) = true
           \/ provider_for env_fixed EnZh = None
           \/ exists p, provider_for env_fixed EnZh = Some p
                /\ p (py_strip (or_empty (Some (str " Hello " ++ ni_hao)))) = Raised)))
  /\ fst (translate_text env_fixed (Some (str " Hello " ++ ni_hao)) (str "en"))
     = py_strip (or_empty (Some (str " Hello " ++ ni_hao)))
  /\ (blank (or_empty (Some (str " Hello " ++ ni_hao))) = true ->
      fst (translate_text env_fixed (Some (str " Hello " ++ ni_hao)) (str "en")) = []).
Proof.
  assert (H : _has_latin (Some (str " Hello " ++ ni_hao)) = true) by reflexivity.
  split.
  - right; left. split; [reflexivity|]. right; left. exact H.
  - apply (translate_text_passthrough env_fixed (Some (str " Hello " ++ ni_hao))
             (str "en")).
    right; left. split; [reflexivity|]. right; left. exact H.
Defined.

(** ** Retriever *)

Lemma retrieve_loop_filter docs :
  forall metas out,
    retrieve_loop docs metas out = out ++ kept_pairs docs metas.
Proof.
  unfold kept_pairs.
  induction docs as [|d docs IH]; intros [|m metas] out; simpl;
    try (now rewrite app_nil_r).
  rewrite IH. unfold both_truthy at 2. simpl.
  destruct (truthy_doc d && truthy_meta m); [|reflexivity].
  rewrite <- app_assoc. reflexivity.
Qed.

Lemma filter_sublist {A} (f : A -> bool) (l : list A) :
  sublist (List.filter f l) l.
Proof.
  induction l as [|x l IH]; simpl; [constructor|].
  destruct (f x); now constructor.
Qed.

Lemma kept_pairs_length docs metas :
  (length (kept_pairs docs metas) <= Nat.min (length docs) (length metas))%nat.
Proof.
  unfold kept_pairs.
  etransitivity; [apply sublist_length, filter_sublist|].
  now rewrite length_combine.
Qed.

(** C5, as amended.  For every question and every store response
    with document array [docs] and metadata array [metas], [retrieve]
    returns exactly the pairs [(d, m)] of the two arrays in which both
    components are non-empty and non-null, in the order the store gave
    them; the result is no longer than the arrays, hence no longer than
    [top_k] whenever the store returned at most [top_k] entries. *)
Theorem retrieve_keeps_truthy_pairs (col : collection_handle)
    (question : pystr) (top_k : Z)
    (docs : list (option pystr)) (metas : list (option metadata))
    (more_docs : list (list (option pystr)))
    (more_metas : list (list (option metadata))) :
  res_documents (query col [question] top_k) = Some (docs :: more_docs) ->
  res_metadatas (query col [question] top_k) = Some (metas :: more_metas) ->
  exists out,
    retrieve col question top_k = Some out
    /\ out = kept_pairs docs metas
    /\ sublist out (combine docs metas)
    /\ (forall d m, In (d, m) out <->
          In (d, m) (combine docs metas)
          /\ truthy_doc d = true /\ truthy_meta m = true)
    /\ (length out <= Nat.min (length docs) (length metas))%nat
    /\ (len_list docs <= top_k -> len_list out <= top_k).
Proof.
  intros Hd Hm. exists (kept_pairs docs metas).
  split; [|split; [reflexivity|split; [apply filter_sublist|split; [|split]]]].
  - unfold retrieve. rewrite Hd, Hm. simpl.
    now rewrite retrieve_loop_filter.
  - intros d m. unfold kept_pairs. rewrite filter_In.
    unfold both_truthy. simpl. rewrite andb_true_iff. tauto.
  - apply kept_pairs_length.
  - pose proof (kept_pairs_length docs metas). unfold len_list. lia.
Qed.

Lemma retrieve_keeps_truthy_pairs_witness :
  res_documents (query two_entry_store [str "q"] 5)
    = Some ([Some (str "a"); Some (str "b")] :: [])
  /\ res_metadatas (query two_entry_store [str "q"] 5)
      = Some ([Some page_zero; Some page_zero] :: [])
  /\ exists out,
      retrieve two_entry_store (str "q") 5 = Some out
      /\ out = kept_pairs [Some (str "a"); Some (str "b")]
                          [Some page_zero; Some page_zero]
      /\ sublist out (combine [Some (str "a"); Some (str "b")]
                              [Some page_zero; Some page_zero])
      /\ (forall d m, In (d, m) out <->
            In (d, m) (combine [Some (str "a"); Some (str "b")]
                               [Some page_zero; Some page_zero])
            /\ truthy_doc d = true /\ truthy_meta m = true)
      /\ (length out <= Nat.min (length [Some (str "a"); Some (str "b")])
                                (length [Some page_zero; Some page_zero]))%nat
      /\ (len_list [Some (str "a"); Some (str "b")] <= 5 ->
          len_list out <= 5).
Proof.
  split; [reflexivity|]. split; [reflexivity|].
  apply (retrieve_keeps_truthy_pairs two_entry_store (str "q") 5
           [Some (str "a"); Some (str "b")] [Some page_zero; Some page_zero]
           [] []); reflexivity.
Defined.

(** C5, as stated, fails on a store response longer than [top_k]:
    [retrieve] does not cut the response, so two well-formed pairs come
    back for [top_k = 1]. *)
Lemma retrieve_longer_than_top_k :
  res_documents (query two_entry_store [str "q"] 1)
    = Some [[Some (str "a"); Some (str "b")]]
  /\ res_metadatas (query two_entry_store [str "q"] 1)
      = Some [[Some page_zero; Some page_zero]]
  /\ retrieve two_entry_store (str "q") 1
      = Some [(Some (str "a"), Some page_zero); (Some (str "b"), Some page_zero)]
  /\ ~ len_list [(Some (str "a"), Some page_zero);
                 (Some (str "b"), Some page_zero)] <= 1.
Proof.
  split; [reflexivity|]. split; [reflexivity|]. split.
  - vm_compute. reflexivity.
  - vm_compute. intros H. now apply H.
Qed.

(** ** DocumentLoader *)

Example iter_docs_demo :
  iter_docs ascii_only demo_dir
  = Some [ Document (str "a.docx") (str "docx")
             [Page (str "p1" ++ [0x0A%N] ++ str "p2") 0];
           Document (str "b.pdf") (str "pdf")
             [Page (str "page one") 0; Page [] 1];
           Document (str "notes.TXT") (str "text") [Page (str "hello") 0] ].
Proof. vm_compute. reflexivity. Qed.

(** *** The order of [sorted] *)

Lemma str_ltb_irrefl a : str_ltb a a = false.
Proof.
  induction a as [|x a IH]; simpl; [reflexivity|].
  rewrite N.ltb_irrefl, N.eqb_refl. exact IH.
Qed.

Lemma str_le_total a : forall b, str_le a b \/ str_le b a.
Proof.
  unfold str_le.
  induction a as [|x a IH]; intros [|y b]; simpl; auto.
  destruct (N.ltb_spec x y), (N.ltb_spec y x),
           (N.eqb_spec x y), (N.eqb_spec y x); simpl; auto; try lia.
Qed.

Lemma str_le_trans a : forall b c, str_le a b -> str_le b c -> str_le a c.
Proof.
  unfold str_le.
  induction a as [|x a IH]; intros [|y b] [|z c]; simpl; auto;
    try discriminate.
  destruct (N.ltb_spec y x), (N.ltb_spec z y), (N.ltb_spec z x),
           (N.eqb_spec y x), (N.eqb_spec z y), (N.eqb_spec z x);
    simpl; auto; try discriminate; try lia.
  apply IH.
Qed.

Global Instance path_le_total : Total path_le.
Proof. intros p q. apply str_le_total. Qed.

Global Instance path_le_trans : Transitive path_le.
Proof. intros p q r. apply str_le_trans. Qed.


Lemma sorted_perm ps : Permutation (sorted ps) ps.
Proof. apply merge_sort_Permutation. Qed.

Lemma filter_perm {A} (f : A -> bool) l l' :
  Permutation l l' -> Permutation (List.filter f l) (List.filter f l').
Proof.
  induction 1 as [|x l l' _ IH|x y l|l l' l'' _ IH1 _ IH2]; simpl.
  - constructor.
  - destruct (f x); [now constructor|exact IH].
  - destruct (f x), (f y); try reflexivity. apply perm_swap.
  - now transitivity (List.filter f l').
Qed.


(** *** The loading loop *)

Section LoaderLoop.

Variable ul : N -> pystr.

Lemma txt_is_not_pdf : str ".txt" <> str ".pdf".
Proof. vm_compute. discriminate. Qed.

Lemma txt_is_not_docx : str ".txt" <> str ".docx".
Proof. vm_compute. discriminate. Qed.

Lemma pdf_is_not_docx : str ".pdf" <> str ".docx".
Proof. vm_compute. discriminate. Qed.

(** One pass either skips the entry, appends its document, or stops
    on a reader that raised. *)
Lemma iter_docs_step_cases items p :
  match iter_docs_step ul items p with
  | Some items' =>
      (supported ul p = false /\ items' = items)
      \/ (supported ul p = true
          /\ exists d, items' = items ++ [d] /\ loaded ul p d)
  | None => reader_raises ul p
  end.
Proof.
  unfold iter_docs_step, reader_raises, loaded, supported, extension.
  destruct (is_file p); simpl; [|now left].
  set (e := lower ul (suffix p)).
  destruct (decide (e = str ".txt")) as [He|Htxt].
  { rewrite bool_decide_eq_true_2 by exact He.
    unfold read_txt. destruct (read_text p) as [t|] eqn:Hp; simpl.
    - right. split; [reflexivity|]. eexists. split; [reflexivity|].
      simpl. split; [reflexivity|]. left. eauto.
    - split; [reflexivity|]. left. auto. }
  rewrite (bool_decide_eq_false_2 _ Htxt). simpl.
  destruct (decide (e = str ".pdf")) as [He|Hpdf].
  { rewrite bool_decide_eq_true_2 by exact He. simpl.
    unfold read_pdf. destruct (pdf_pages p) as [extracted|] eqn:Hp; simpl.
    - right. split; [reflexivity|]. eexists. split; [reflexivity|].
      simpl. split; [reflexivity|]. right; left. auto.
    - split; [reflexivity|]. right; left. auto. }
  rewrite (bool_decide_eq_false_2 _ Hpdf). simpl.
  destruct (decide (e = str ".docx")) as [He|Hdocx].
  { rewrite bool_decide_eq_true_2 by exact He.
    unfold read_docx. destruct (docx_paragraphs p) as [paragraphs|] eqn:Hp;
      simpl.
    - right. split; [reflexivity|]. eexists. split; [reflexivity|].
      simpl. split; [reflexivity|]. right; right. auto.
    - split; [reflexivity|]. right; right. auto. }
  rewrite (bool_decide_eq_false_2 _ Hdocx). now left.
Qed.

Lemma iter_docs_loop_cases ps :
  forall items,
    match iter_docs_loop ul ps items with
    | Some r =>
        exists new,
          r = items ++ new
          /\ Forall2 (loaded ul) (List.filter (supported ul) ps) new
    | None => Exists (reader_raises ul) ps
    end.
Proof.
  induction ps as [|p ps IH]; intros items; simpl.
  - exists []. split; [now rewrite app_nil_r|constructor].
  - pose proof (iter_docs_step_cases items p) as Hstep.
    destruct (iter_docs_step ul items p) as [items'|]; simpl;
      [|now constructor].
    specialize (IH items').
    destruct (iter_docs_loop ul ps items') as [r|];
      [|now constructor 2].
    destruct IH as (new & -> & Hnew).
    destruct Hstep as [[Hs ->]|[Hs (d & -> & Hd)]]; rewrite Hs.
    + exists new. auto.
    + exists (d :: new). rewrite <- app_assoc. split; [reflexivity|].
      now constructor.
Qed.

Lemma loaded_filenames ps docs :
  Forall2 (loaded ul) ps docs -> map filename docs = map name ps.
Proof.
  induction 1 as [|p d ps docs [Hn _] _ IH]; simpl; [reflexivity|].
  now rewrite Hn, IH.
Qed.

End LoaderLoop.

Lemma Forall2_Forall_r {A B} (R : A -> B -> Prop) l k :
  Forall2 R l k -> Forall (fun y => exists x, In x l /\ R x y) k.
Proof.
  induction 1 as [|x y l k Hxy _ IH]; constructor.
  - exists x. split; [now left|exact Hxy].
  - eapply List.Forall_impl; [|exact IH].
    intros z (w & Hw & Hz). exists w. split; [now right|exact Hz].
Qed.


(** ** IndexBuilder *)

(** *** The id format can be read back *)

(** A string is cut in one way only at its last [|]. *)
Lemma cut_at_last_bar (x : pystr) :
  forall x' u u',
    x ++ bar :: u = x' ++ bar :: u' ->
    ~ In bar u -> ~ In bar u' ->
    x = x' /\ u = u'.
Proof.
  induction x as [|a x IH]; intros [|a' x'] u u' Heq Hu Hu'; simpl in Heq.
  - injection Heq as ->. auto.
  - injection Heq as <- ->. exfalso. apply Hu.
    apply in_or_app. right. now left.
  - injection Heq as -> <-. exfalso. apply Hu'.
    apply in_or_app. right. now left.
  - injection Heq as <- Heq. destruct (IH x' u u' Heq Hu Hu') as [-> ->].
    auto.
Qed.

Lemma uint_digits_range u : Forall (fun c => (0x30 <= c <= 0x39)%N) (uint_digits u).
Proof. induction u; simpl; constructor; auto; lia. Qed.

Lemma uint_digits_inj u : forall u', uint_digits u = uint_digits u' -> u = u'.
Proof.
  induction u; intros [] H; simpl in H; try discriminate;
    try reflexivity; injection H as H; f_equal; auto.
Qed.

Lemma str_of_int_no_bar z : ~ In bar (str_of_int z).
Proof.
  unfold str_of_int. intros Hin.
  assert (Hd : forall u, ~ In bar (uint_digits u)).
  { intros u Hu. pose proof (uint_digits_range u) as Hr.
    rewrite List.Forall_forall in Hr. specialize (Hr _ Hu).
    unfold bar in Hr. lia. }
  destruct (Z.to_int z) as [u|u]; simpl in Hin.
  - exact (Hd u Hin).
  - destruct Hin as [Hin|Hin]; [discriminate|exact (Hd u Hin)].
Qed.

Lemma str_of_int_inj z z' : str_of_int z = str_of_int z' -> z = z'.
Proof.
  unfold str_of_int. intros H. apply DecimalZ.to_int_inj.
  destruct (Z.to_int z) as [u|u], (Z.to_int z') as [u'|u'].
  - f_equal. now apply uint_digits_inj.
  - exfalso. pose proof (uint_digits_range u) as Hr. rewrite H in Hr.
    inversion Hr; subst. lia.
  - exfalso. pose proof (uint_digits_range u') as Hr. rewrite <- H in Hr.
    inversion Hr; subst. lia.
  - injection H as H. f_equal. now apply uint_digits_inj.
Qed.

(** Two ids are equal only for the same file name, page and chunk
    index, whatever characters the file name holds. *)
Lemma chunk_id_inj f p c f' p' c' :
  chunk_id f p c = chunk_id f' p' c' -> f = f' /\ p = p' /\ c = c'.
Proof.
  unfold chunk_id. change (str "|p") with [bar; 0x70%N].
  change (str "|c") with [bar; 0x63%N]. simpl. intros H.
  assert (Hc : forall z, ~ In bar (0x63%N :: str_of_int z)).
  { intros z [Hz|Hz]; [discriminate|exact (str_of_int_no_bar z Hz)]. }
  assert (Hp : forall z, ~ In bar (0x70%N :: str_of_int z)).
  { intros z [Hz|Hz]; [discriminate|exact (str_of_int_no_bar z Hz)]. }
  replace (f ++ bar :: 0x70%N :: str_of_int p ++ bar :: 0x63%N :: str_of_int c)
    with ((f ++ bar :: 0x70%N :: str_of_int p) ++ bar :: 0x63%N :: str_of_int c)
    in H by (rewrite <- app_assoc; reflexivity).
  replace (f' ++ bar :: 0x70%N :: str_of_int p' ++ bar :: 0x63%N :: str_of_int c')
    with ((f' ++ bar :: 0x70%N :: str_of_int p') ++ bar :: 0x63%N :: str_of_int c')
    in H by (rewrite <- app_assoc; reflexivity).
  apply cut_at_last_bar in H as [H1 H2]; [|apply Hc|apply Hc].
  apply cut_at_last_bar in H1 as [H0 H1]; [|apply Hp|apply Hp].
  injection H1 as H1. injection H2 as H2.
  split; [exact H0|]. split; now apply str_of_int_inj.
Qed.

(** *** The ids the loops append *)

Lemma key_id_inj : Inj (=) (=) key_id.
Proof.
  intros [f [p c]] [f' [p' c']] H. unfold key_id in H. simpl in H.
  apply chunk_id_inj in H as (-> & -> & ->). reflexivity.
Qed.

Lemma for_chunks_ids d pg chs :
  forall i acc,
    ids (for_chunks d pg i chs acc)
    = ids acc ++ map (fun j => key_id (filename d, (page_no pg, Z.of_nat j)))
                     (seq i (length chs)).
Proof.
  induction chs as [|ch chs IH]; intros i acc; simpl.
  - now rewrite app_nil_r.
  - rewrite IH. simpl. rewrite <- app_assoc. reflexivity.
Qed.

Lemma for_pages_ids d pgs :
  forall acc r,
    for_pages d pgs acc = Some r ->
    exists keys : list (Z * Z),
      ids r = ids acc ++ map (fun k => key_id (filename d, k)) keys
      /\ (forall k, In k keys -> In k.1 (map page_no pgs))
      /\ (NoDup (map page_no pgs) -> NoDup keys).
Proof.
  induction pgs as [|pg pgs IH]; intros acc r Hrun; simpl in Hrun.
  - injection Hrun as <-. exists []. simpl. rewrite app_nil_r.
    repeat split; [tauto|constructor].
  - destruct (chunk_text (Some (text pg)) CHUNK_SIZE CHUNK_OVERLAP)
      as [chs|]; [|discriminate]. simpl in Hrun.
    destruct (IH _ _ Hrun) as (keys & Hids & Hin & Hnd).
    exists (map (fun j => (page_no pg, Z.of_nat j)) (seq 0 (length chs)) ++ keys).
    split; [|split].
    + rewrite Hids, for_chunks_ids, map_app, map_map, <- app_assoc.
      reflexivity.
    + intros k Hk. apply in_app_or in Hk as [Hk|Hk]; simpl.
      * apply in_map_iff in Hk as (j & <- & _). now left.
      * right. now apply Hin.
    + simpl. intros Hpages. apply NoDup_cons in Hpages as [Hfresh Hpages].
      apply NoDup_app. split; [|split].
      * apply NoDup_fmap_2; [|apply NoDup_ListNoDup, seq_NoDup].
        intros j j' [= H]. lia.
      * intros k Hk Hk'. apply list_elem_of_In in Hk, Hk'.
        apply in_map_iff in Hk as (j & <- & _).
        apply Hfresh. apply list_elem_of_In. exact (Hin _ Hk').
      * now apply Hnd.
Qed.

Lemma for_docs_ids docs :
  forall acc r,
    for_docs docs acc = Some r ->
    exists keys : list (pystr * (Z * Z)),
      ids r = ids acc ++ map key_id keys
      /\ (forall k, In k keys -> In k.1 (map filename docs))
      /\ (NoDup (map filename docs) ->
          Forall (fun d => NoDup (map page_no (pages d))) docs ->
          NoDup keys).
Proof.
  induction docs as [|d docs IH]; intros acc r Hrun; simpl in Hrun.
  - injection Hrun as <-. exists []. simpl. rewrite app_nil_r.
    repeat split; [tauto|constructor].
  - destruct (for_pages d (pages d) acc) as [acc'|] eqn:Hpages;
      [|discriminate]. simpl in Hrun.
    destruct (for_pages_ids _ _ _ _ Hpages) as (pkeys & Hpids & _ & Hpnd).
    destruct (IH _ _ Hrun) as (keys & Hids & Hin & Hnd).
    exists (map (fun k => (filename d, k)) pkeys ++ keys).
    split; [|split].
    + rewrite Hids, Hpids, map_app, map_map, <- app_assoc. reflexivity.
    + intros k Hk. apply in_app_or in Hk as [Hk|Hk]; simpl.
      * apply in_map_iff in Hk as (j & <- & _). now left.
      * right. now apply Hin.
    + simpl. intros Hnames Hall. apply NoDup_cons in Hnames as [Hfresh Hnames].
      apply Forall_cons in Hall as [Hd Hall].
      apply NoDup_app. split; [|split].
      * apply NoDup_fmap_2; [|now apply Hpnd].
        intros k k' [= H]. exact H.
      * intros k Hk Hk'. apply list_elem_of_In in Hk, Hk'.
        apply in_map_iff in Hk as (j & <- & _).
        apply Hfresh. apply list_elem_of_In. exact (Hin _ Hk').
      * now apply Hnd.
Qed.

(** *** Documents as the loader builds them *)

Lemma imap_page_numbers (g : option pystr -> pystr) extracted :
  forall k,
    map page_no (imap (fun i t => Page (g t) (Z.of_nat (k + i))) extracted)
    = map Z.of_nat (seq k (length extracted)).
Proof.
  induction extracted as [|t extracted IH]; intros k; [reflexivity|].
  rewrite imap_cons. simpl. rewrite Nat.add_0_r. f_equal.
  rewrite <- IH. f_equal. apply imap_ext. intros i x _. simpl.
  do 2 f_equal. lia.
Qed.

Lemma loaded_page_numbers ul p d :
  loaded ul p d -> NoDup (map page_no (pages d)).
Proof.
  intros [_ [(_ & _ & t & _ & ->)|[(_ & _ & H)|(_ & _ & H)]]].
  - simpl. apply NoDup_singleton.
  - unfold read_pdf in H. destruct (pdf_pages p) as [extracted|];
      [|discriminate]. injection H as <-.
    pose proof (imap_page_numbers or_empty extracted 0) as Hnum.
    simpl in Hnum. rewrite Hnum.
    apply NoDup_fmap_2; [|apply NoDup_ListNoDup, seq_NoDup].
    intros i j Hij. lia.
  - unfold read_docx in H. destruct (docx_paragraphs p); [|discriminate].
    injection H as <-. simpl. apply NoDup_singleton.
Qed.

(** The chunker returns on every page with the configured window. *)
Lemma chunk_text_default_returns text :
  is_Some (chunk_text text CHUNK_SIZE CHUNK_OVERLAP).
Proof.
  apply chunk_text_returns. unfold CHUNK_SIZE, CHUNK_OVERLAP. lia.
Qed.

Lemma for_pages_returns d pgs : forall acc, is_Some (for_pages d pgs acc).
Proof.
  induction pgs as [|pg pgs IH]; intros acc; simpl; [eauto|].
  destruct (chunk_text_default_returns (Some (text pg))) as [chs ->].
  simpl. apply IH.
Qed.

Lemma for_docs_returns docs : forall acc, is_Some (for_docs docs acc).
Proof.
  induction docs as [|d docs IH]; intros acc; simpl; [eauto|].
  destruct (for_pages_returns d (pages d) acc) as [acc' ->]. simpl. apply IH.
Qed.

(** With a store that accepts the batch, [rebuild_index] returns
    exactly when the loader does: the chunker and the three loops always
    finish. *)
Lemma rebuild_index_returns ul client docs_dir :
  is_Some (rebuild_index ul client docs_dir) <->
  is_Some (iter_docs ul docs_dir).
Proof.
  unfold rebuild_index.
  destruct (get_or_create_collection _) as [client' col].
  destruct (iter_docs ul docs_dir) as [docs|]; simpl.
  - destruct (for_docs_returns docs (Columns [] [] [])) as [new ->]. simpl.
    split; eauto.
  - split; intros [x Hx]; discriminate.
Qed.

(** C4.  For every directory whose supported files have pairwise
    distinct names, the list [ids] that [rebuild_index] builds holds no
    id twice; the rebuilt collection holds exactly these ids, and the
    returned chunk count is their number. *)
Theorem rebuild_index_ids_unique (unicode_lower : N -> pystr)
    (client client' : chroma) (docs_dir : list path) (counts : Z * Z) :
  NoDup (map name (List.filter (supported unicode_lower) docs_dir)) ->
  rebuild_index unicode_lower client docs_dir = Some (client', counts) ->
  exists docs new,
    iter_docs unicode_lower docs_dir = Some docs
    /\ for_docs docs (Columns [] [] []) = Some new
    /\ NoDup (ids new)
    /\ (exists col, collection client' = Some col /\ ids col = ids new)
    /\ counts = (len_list (ids new), len_list docs).
Proof.
  intros Hnames Hrun. unfold rebuild_index in Hrun.
  pose proof (iter_docs_loop_cases unicode_lower (sorted docs_dir) []) as Hload.
  unfold iter_docs in *.
  destruct (iter_docs_loop unicode_lower (sorted docs_dir) []) as [docs|];
    [|destruct (get_or_create_collection _); discriminate].
  destruct Hload as (new_docs & Hdocs & Hloaded). simpl in Hdocs. subst new_docs.
  assert (Hcol : get_or_create_collection
                   match delete_collection client with
                   | Some c => c
                   | None => client
                   end
                 = (Chroma (Some (Columns [] [] [])), Columns [] [] [])).
  { unfold delete_collection, get_or_create_collection.
    destruct (collection client) eqn:Hc; simpl; [reflexivity|].
    now rewrite Hc. }
  rewrite Hcol in Hrun. simpl in Hrun.
  destruct (for_docs docs (Columns [] [] [])) as [new|] eqn:Hnew;
    [|discriminate]. simpl in Hrun.
  exists docs, new. split; [reflexivity|]. split; [exact Hnew|].
  destruct (for_docs_ids _ _ _ Hnew) as (keys & Hids & _ & Hnd).
  simpl in Hids. split; [|split].
  - rewrite Hids. apply NoDup_fmap_2; [apply key_id_inj|]. apply Hnd.
    + rewrite (loaded_filenames _ _ _ Hloaded).
      apply NoDup_ListNoDup.
      eapply Permutation_NoDup; [|apply NoDup_ListNoDup, Hnames].
      apply Permutation_map, filter_perm. symmetry. apply sorted_perm.
    + apply Forall2_Forall_r in Hloaded.
      eapply List.Forall_impl; [|exact Hloaded].
      intros d (p & _ & Hd). exact (loaded_page_numbers _ _ _ Hd).
  - injection Hrun as <- _. destruct (ids new) eqn:Hn; simpl; eauto.
  - injection Hrun as _ <-. reflexivity.
Qed.

Lemma rebuild_index_ids_unique_witness :
  NoDup (map name (List.filter (supported ascii_only) demo_dir))
  /\ exists client' counts,
       rebuild_index ascii_only (Chroma None) demo_dir = Some (client', counts)
       /\ exists docs new,
            iter_docs ascii_only demo_dir = Some docs
            /\ for_docs docs (Columns [] [] []) = Some new
            /\ NoDup (ids new)
            /\ (exists col, collection client' = Some col /\ ids col = ids new)
            /\ counts = (len_list (ids new), len_list docs).
Proof.
  assert (Hnames : NoDup (map name (List.filter (supported ascii_only) demo_dir))).
  { apply (bool_decide_unpack _). vm_compute. exact I. }
  split; [exact Hnames|].
  destruct (rebuild_index ascii_only (Chroma None) demo_dir)
    as [[client' counts]|] eqn:Hrun.
  - exists client', counts. split; [reflexivity|].
    exact (rebuild_index_ids_unique ascii_only (Chroma None) client' demo_dir
             counts Hnames Hrun).
  - exfalso.
    assert (H : is_Some (rebuild_index ascii_only (Chroma None) demo_dir)).
    { apply rebuild_index_returns. rewrite iter_docs_demo. eauto. }
    rewrite Hrun in H. destruct H as [x Hx]. discriminate.
Defined.

Example rebuild_index_demo_ids :
  match rebuild_index ascii_only (Chroma None) demo_dir with
  | Some (Chroma (Some col), _) => Some (ids col)
  | _ => None
  end
  = Some [ str "a.docx|p0|c0"; str "b.pdf|p0|c0"; str "notes.TXT|p0|c0" ].
Proof. vm_compute. reflexivity. Qed.

(** The end-to-end scenario of the specification: one text file. *)
Example rebuild_index_policy :
  snd <$> rebuild_index ascii_only (Chroma None)
            [plain_file (str "policy.txt") (str "Returns accepted within 30 days.")]
  = Some (1, 1).
Proof. vm_compute. reflexivity. Qed.

(** ** Worked cases *)

(** A text no longer than the window, measured before normalization,
    is a single chunk as well. *)
Lemma chunk_text_single_chunk_raw text size overlap :
  normalize text <> [] -> len (or_empty text) <= size ->
  chunk_text text size overlap = Some [normalize text].
Proof.
  intros Hne Hlen. unfold chunk_text, chunk_text_fuel, chunk_text_run.
  pose proof (normalize_length text) as Hnorm.
  destruct (normalize text) as [|c T'] eqn:HT; [now elim Hne|].
  set (T := c :: T') in *.
  assert (Hpos : 0 < len T <= size) by (unfold len, T in *; simpl in *; lia).
  rewrite chunk_while_step by (simpl; lia).
  unfold chunk_body. cbn [start chunks].
  destruct (Z.eqb_spec (Z.min (0 + size) (len T)) (len T)) as [->|]; [|lia].
  simpl. rewrite py_slice_all. reflexivity.
Qed.

(** Windows of four characters overlapping by one. *)
Example chunk_text_windows :
  chunk_text (Some (str "abcdefghij")) 4 1
  = Some [str "abcd"; str "defg"; str "ghij"].
Proof. reflexivity. Qed.

(** With [overlap = size] the second window starts where the first
    did, and so does every later one. *)
Example chunk_text_overlap_equal_size :
  forall fuel, chunk_text_fuel fuel (Some (str "ab")) 1 1 = None.
Proof.
  intros fuel. apply chunk_text_diverges. reflexivity.
Qed.

(** A negative bound of a slice counts from the end. *)
Example py_slice_negative : py_slice (str "abcde") 1 (-1) = str "bcd".
Proof. reflexivity. Qed.

(** The truth table of the translation gate on the cases the
    specification lists. *)
Example gate_pure_cjk :
  translate_text env_fixed (Some (ni_hao ++ [0x4E16; 0x754C]%N)) (str "en")
  = (str "hello", [Call ZhEn (ni_hao ++ [0x4E16; 0x754C]%N)]).
Proof. reflexivity. Qed.

Example gate_no_cjk :
  translate_text env_fixed (Some (str "Hello world")) (str "en")
  = (str "Hello world", []).
Proof. reflexivity. Qed.

Example gate_mixed :
  translate_text env_fixed (Some (str "Hello " ++ ni_hao)) (str "en")
  = (str "Hello " ++ ni_hao, []).
Proof. reflexivity. Qed.

Example gate_empty :
  translate_text env_fixed (Some []) (str "zh") = ([], []).
Proof. reflexivity. Qed.

Example gate_pure_latin :
  translate_text env_fixed (Some (str "Hello")) (str "zh")
  = (ni_hao, [Call EnZh (str "Hello")]).
Proof. reflexivity. Qed.

Example gate_no_transformers :
  translate_text env_unavailable (Some ni_hao) (str "en") = (ni_hao, []).
Proof. reflexivity. Qed.

(** An id is read the same way even when the file name holds the
    separators of the format. *)
Example chunk_id_with_bars :
  chunk_id (str "a|p1|c2.txt") 0 3 = str "a|p1|c2.txt|p0|c3".
Proof. reflexivity. Qed.

(** * Further properties *)

(** ** Chunker: the windows *)

Section Windows.

Variables (T : pystr) (size overlap : Z).
Hypothesis Hsize : 0 < size.
Hypothesis Hoverlap : 0 <= overlap < size.

Let n := len T.
Let step := size - overlap.

(** From the loop head of pass [i] the loop appends the windows
    [i, i+1, ...] and stops at the first one that reaches the end. *)
Lemma chunk_while_windows fuel :
  forall (i : nat) e0 acc,
    Z.of_nat i * step < n ->
    (Z.to_nat (n - Z.of_nat i * step) <= fuel)%nat ->
    exists (k : nat) s',
      (1 <= k)%nat
      /\ chunk_while fuel T n size overlap
           (ChunkLocals (Z.of_nat i * step) e0 acc)
         = Some (ChunkLocals s' (Some n)
                   (acc ++ map (window T size overlap) (seq i k)))
      /\ n <= Z.of_nat (i + k - 1) * step + size
      /\ (forall j, (i <= j < i + k - 1)%nat -> Z.of_nat j * step + size < n).
Proof using Hsize Hoverlap.
  induction fuel as [|fuel IH]; intros i e0 acc Hi Hfuel; [lia|].
  assert (H0 : 0 <= Z.of_nat i * step) by (unfold step; nia).
  rewrite chunk_while_step by (simpl; lia).
  unfold chunk_body; cbn [start chunks].
  destruct (Z.eqb_spec (Z.min (Z.of_nat i * step + size) n) n) as [Heq|Hne].
  - exists 1%nat, (Z.of_nat i * step). split; [lia|]. split; [|split].
    + simpl. unfold window. fold step. fold n. rewrite Heq. reflexivity.
    + replace (i + 1 - 1)%nat with i by lia. lia.
    + intros j Hj. lia.
  - assert (Hlt : Z.of_nat i * step + size < n) by lia.
    rewrite Z.min_l by lia.
    replace (Z.max 0 (Z.of_nat i * step + size - overlap))
      with (Z.of_nat (S i) * step) by (unfold step; nia).
    destruct (IH (S i) (Some (Z.of_nat i * step + size))
                (acc ++ [py_slice T (Z.of_nat i * step)
                           (Z.of_nat i * step + size)]))
      as (k & s' & Hk & Hrun & Hend & Hbefore).
    + unfold step in *. nia.
    + unfold step in *. nia.
    + exists (S k), s'. split; [lia|]. split; [|split].
      * rewrite Hrun. rewrite <- app_assoc. simpl. unfold window at 2.
        fold step. fold n. rewrite Z.min_l by lia. reflexivity.
      * replace (i + S k - 1)%nat with (S i + k - 1)%nat by lia. exact Hend.
      * intros j Hj. destruct (Nat.eq_dec j i) as [->|Hji]; [exact Hlt|].
        apply Hbefore. lia.
Qed.

End Windows.

(** The chunks of a call under the precondition are the windows
    [0 .. k-1], where window [k-1] is the first to reach the end of the
    normalized text. *)
Lemma chunk_text_as_windows text size overlap :
  0 < size -> 0 <= overlap < size -> normalize text <> [] ->
  exists k : nat,
    (1 <= k)%nat
    /\ chunk_text text size overlap
       = Some (map (window (normalize text) size overlap) (seq 0 k))
    /\ len (normalize text) <= Z.of_nat (k - 1) * (size - overlap) + size
    /\ (forall j, (j < k - 1)%nat ->
          Z.of_nat j * (size - overlap) + size < len (normalize text)).
Proof.
  intros Hsize Hov Hne. unfold chunk_text, chunk_text_fuel, chunk_text_run.
  destruct (normalize text) as [|c T'] eqn:HT; [now elim Hne|].
  set (T := c :: T') in *.
  assert (Hpos : 0 < len T) by (unfold len, T; simpl; lia).
  destruct (chunk_while_windows T size overlap Hsize Hov (S (length T))
              0%nat None []) as (k & s' & Hk & Hrun & Hend & Hbefore).
  - change (Z.of_nat 0) with 0. lia.
  - change (Z.of_nat 0) with 0. unfold len. lia.
  - exists k. split; [exact Hk|].
    change (Z.of_nat 0 * (size - overlap)) with 0 in Hrun.
    rewrite Hrun. simpl.
    split; [reflexivity|]. split; [exact Hend|].
    intros j Hj. apply Hbefore. lia.
Qed.

(** The same, read off a returned list: chunk [i] is window [i], the
    last window is the first to reach the end. *)
Lemma chunk_text_shape text size overlap chs :
  0 < size -> 0 <= overlap < size ->
  chunk_text text size overlap = Some chs ->
  (normalize text = [] /\ chs = [])
  \/ (normalize text <> []
      /\ (1 <= length chs)%nat
      /\ chs = map (window (normalize text) size overlap) (seq 0 (length chs))
      /\ len (normalize text)
           <= Z.of_nat (length chs - 1) * (size - overlap) + size
      /\ (forall j, (j < length chs - 1)%nat ->
            Z.of_nat j * (size - overlap) + size < len (normalize text))).
Proof.
  intros Hsize Hov Hret.
  destruct (normalize text) as [|c T'] eqn:HT.
  - left. split; [reflexivity|].
    unfold chunk_text, chunk_text_fuel, chunk_text_run in Hret.
    rewrite HT in Hret. simpl in Hret. now injection Hret as <-.
  - right. rewrite <- HT in *.
    assert (Hne : normalize text <> []) by (rewrite HT; discriminate).
    destruct (chunk_text_as_windows text size overlap Hsize Hov Hne)
      as (k & Hk & Hrun & Hend & Hbefore).
    rewrite Hrun in Hret. injection Hret as <-.
    rewrite length_map, length_seq. auto.
Qed.

Lemma window_length T size overlap (i : nat) :
  0 < size -> 0 <= overlap < size ->
  Z.of_nat i * (size - overlap) <= len T ->
  len (window T size overlap i)
  = Z.min (Z.of_nat i * (size - overlap) + size) (len T)
    - Z.of_nat i * (size - overlap).
Proof.
  intros Hsize Hov Hi. unfold window.
  apply py_slice_length; nia.
Qed.

(** In a returned list, window [i] starts inside the text. *)
Lemma window_starts_inside text size overlap chs (i : nat) :
  0 < size -> 0 <= overlap < size ->
  chunk_text text size overlap = Some chs ->
  (i < length chs)%nat ->
  Z.of_nat i * (size - overlap) < len (normalize text)
  /\ ((0 < i)%nat ->
      Z.of_nat i * (size - overlap) + overlap < len (normalize text)).
Proof.
  intros Hsize Hov Hret Hi.
  destruct (chunk_text_shape text size overlap chs Hsize Hov Hret)
    as [[_ ->]|(Hne & Hk & _ & Hend & Hbefore)]; [simpl in Hi; lia|].
  assert (Hn : 0 < len (normalize text)).
  { destruct (normalize text); [now elim Hne|unfold len; simpl; lia]. }
  destruct i as [|i].
  - split; [simpl; lia|lia].
  - assert (H := Hbefore i ltac:(lia)). split; [nia|intros _; nia].
Qed.

(** X1.  Under [size > 0], [0 <= overlap < size]: the chunk at
    position [i] of the result is the slice of the normalized text that
    starts at [i * (size - overlap)] and ends [size] later or at the end
    of the text, whichever comes first. *)
Theorem chunk_text_nth_window (text : option pystr) (size overlap : Z)
    (chs : list pystr) (i : nat) (ch : pystr) :
  0 < size -> 0 <= overlap < size ->
  chunk_text text size overlap = Some chs ->
  chs !! i = Some ch ->
  ch = py_slice (normalize text) (Z.of_nat i * (size - overlap))
         (Z.min (Z.of_nat i * (size - overlap) + size) (len (normalize text))).
Proof.
  intros Hsize Hov Hret Hi.
  destruct (chunk_text_shape text size overlap chs Hsize Hov Hret)
    as [[_ ->]|(_ & _ & Hchs & _)]; [discriminate|].
  rewrite Hchs in Hi. rewrite list_lookup_fmap in Hi.
  destruct (seq 0 (length chs) !! i) as [j|] eqn:Hj; [|discriminate].
  apply lookup_seq in Hj as [-> _]. simpl in Hi. injection Hi as <-.
  reflexivity.
Qed.

Lemma chunk_text_nth_window_witness :
  0 < 4 /\ 0 <= 1 < 4
  /\ chunk_text (Some (str " abcdefghij ")) 4 1
     = Some [str "abcd"; str "defg"; str "ghij"]
  /\ [str "abcd"; str "defg"; str "ghij"] !! 2%nat = Some (str "ghij")
  /\ str "ghij"
     = py_slice (normalize (Some (str " abcdefghij ")))
         (Z.of_nat 2 * (4 - 1))
         (Z.min (Z.of_nat 2 * (4 - 1) + 4)
                (len (normalize (Some (str " abcdefghij "))))).
Proof.
  assert (H : chunk_text (Some (str " abcdefghij ")) 4 1
              = Some [str "abcd"; str "defg"; str "ghij"]) by reflexivity.
  split; [lia|]. split; [lia|]. split; [exact H|]. split; [reflexivity|].
  apply (chunk_text_nth_window (Some (str " abcdefghij ")) 4 1
           [str "abcd"; str "defg"; str "ghij"] 2 (str "ghij"));
    [lia|lia|exact H|reflexivity].
Defined.

(** X2.  Under the precondition no chunk is empty and none is longer
    than [size]; every chunk but the last has exactly [size] characters,
    and every chunk after the first has more than [overlap]. *)
Theorem chunk_text_chunk_lengths (text : option pystr) (size overlap : Z)
    (chs : list pystr) (i : nat) (ch : pystr) :
  0 < size -> 0 <= overlap < size ->
  chunk_text text size overlap = Some chs ->
  chs !! i = Some ch ->
  1 <= len ch <= size
  /\ ((S i < length chs)%nat -> len ch = size)
  /\ ((0 < i)%nat -> overlap < len ch).
Proof.
  intros Hsize Hov Hret Hi.
  assert (Hlt : (i < length chs)%nat) by (eapply lookup_lt_Some; eauto).
  destruct (window_starts_inside text size overlap chs i Hsize Hov Hret Hlt)
    as [Hstart Hafter].
  destruct (chunk_text_shape text size overlap chs Hsize Hov Hret)
    as [[_ ->]|(_ & _ & Hchs & _ & Hbefore)]; [discriminate|].
  assert (Hch : ch = window (normalize text) size overlap i).
  { rewrite Hchs in Hi. rewrite list_lookup_fmap in Hi.
    destruct (seq 0 (length chs) !! i) as [j|] eqn:Hj; [|discriminate].
    apply lookup_seq in Hj as [-> _]. now injection Hi as <-. }
  rewrite Hch, window_length by lia.
  split; [lia|]. split.
  - intros Hnext. specialize (Hbefore i ltac:(lia)). lia.
  - intros Hpos. specialize (Hafter Hpos). lia.
Qed.

Lemma chunk_text_chunk_lengths_witness :
  0 < 4 /\ 0 <= 1 < 4
  /\ chunk_text (Some (str "abcdefghijk")) 4 1
     = Some [str "abcd"; str "defg"; str "ghij"; str "jk"]
  /\ [str "abcd"; str "defg"; str "ghij"; str "jk"] !! 3%nat = Some (str "jk")
  /\ 1 <= len (str "jk") <= 4
  /\ ((4 < length [str "abcd"; str "defg"; str "ghij"; str "jk"])%nat ->
      len (str "jk") = 4)
  /\ ((0 < 3)%nat -> 1 < len (str "jk")).
Proof.
  assert (H : chunk_text (Some (str "abcdefghijk")) 4 1
              = Some [str "abcd"; str "defg"; str "ghij"; str "jk"])
    by reflexivity.
  split; [lia|]. split; [lia|]. split; [exact H|]. split; [reflexivity|].
  apply (chunk_text_chunk_lengths (Some (str "abcdefghijk")) 4 1
           [str "abcd"; str "defg"; str "ghij"; str "jk"] 3 (str "jk"));
    [lia|lia|exact H|reflexivity].
Defined.

(** A slice of a slice is a slice. *)
Lemma py_slice_slice T lo hi a b :
  0 <= lo <= hi -> hi <= len T -> 0 <= a <= b -> b <= hi - lo ->
  py_slice (py_slice T lo hi) a b = py_slice T (lo + a) (lo + b).
Proof.
  intros Hlo Hhi Ha Hb.
  rewrite (py_slice_inner (py_slice T lo hi)) by
    (rewrite ?py_slice_length; lia).
  rewrite !py_slice_inner by lia.
  rewrite skipn_firstn_comm, firstn_firstn, drop_drop.
  f_equal; [lia|]. f_equal. lia.
Qed.

(** X3.  Under the precondition two consecutive chunks share exactly
    [overlap] characters: the last [overlap] characters of a chunk are the
    first [overlap] characters of the next one, also when the next one is
    the last. *)
Theorem chunk_text_consecutive_overlap (text : option pystr)
    (size overlap : Z) (chs : list pystr) (i : nat) (a b : pystr) :
  0 < size -> 0 <= overlap < size ->
  chunk_text text size overlap = Some chs ->
  chs !! i = Some a -> chs !! S i = Some b ->
  py_slice a (size - overlap) size = py_slice b 0 overlap
  /\ len (py_slice b 0 overlap) = overlap.
Proof.
  intros Hsize Hov Hret Ha Hb.
  assert (Hlt : (S i < length chs)%nat) by (eapply lookup_lt_Some; eauto).
  destruct (window_starts_inside text size overlap chs (S i) Hsize Hov Hret Hlt)
    as [Hstart Hafter]. specialize (Hafter ltac:(lia)).
  destruct (chunk_text_shape text size overlap chs Hsize Hov Hret)
    as [[_ ->]|(_ & _ & Hchs & _ & Hbefore)]; [discriminate|].
  specialize (Hbefore i ltac:(lia)).
  assert (Hnth : forall j ch, chs !! j = Some ch ->
                   ch = window (normalize text) size overlap j).
  { intros j ch Hj. rewrite Hchs in Hj. rewrite list_lookup_fmap in Hj.
    destruct (seq 0 (length chs) !! j) as [j'|] eqn:Hj'; [|discriminate].
    apply lookup_seq in Hj' as [-> _]. now injection Hj as <-. }
  rewrite (Hnth _ _ Ha), (Hnth _ _ Hb). unfold window.
  set (T := normalize text) in *. set (step := size - overlap) in *.
  assert (Hi : 0 <= Z.of_nat i * step) by (unfold step; nia).
  assert (HS : Z.of_nat (S i) * step = Z.of_nat i * step + step) by nia.
  rewrite (Z.min_l (Z.of_nat i * step + size)) by lia.
  rewrite !py_slice_slice by lia.
  split.
  - f_equal; unfold step; lia.
  - rewrite py_slice_length; lia.
Qed.

Lemma chunk_text_consecutive_overlap_witness :
  0 < 4 /\ 0 <= 2 < 4
  /\ chunk_text (Some (str "abcdefg")) 4 2
     = Some [str "abcd"; str "cdef"; str "efg"]
  /\ [str "abcd"; str "cdef"; str "efg"] !! 1%nat = Some (str "cdef")
  /\ [str "abcd"; str "cdef"; str "efg"] !! 2%nat = Some (str "efg")
  /\ py_slice (str "cdef") (4 - 2) 4 = py_slice (str "efg") 0 2
  /\ len (py_slice (str "efg") 0 2) = 2.
Proof.
  assert (H : chunk_text (Some (str "abcdefg")) 4 2
              = Some [str "abcd"; str "cdef"; str "efg"]) by reflexivity.
  split; [lia|]. split; [lia|]. split; [exact H|].
  split; [reflexivity|]. split; [reflexivity|].
  apply (chunk_text_consecutive_overlap (Some (str "abcdefg")) 4 2
           [str "abcd"; str "cdef"; str "efg"] 1 (str "cdef") (str "efg"));
    [lia|lia|exact H|reflexivity|reflexivity].
Defined.

(** X4.  Under the precondition a non-empty normalized text of
    length [n] gives one chunk when [n <= size], and otherwise one chunk
    plus one for every step of [size - overlap], rounded up, that the text
    is longer than [size]. *)
Theorem chunk_text_count (text : option pystr) (size overlap : Z)
    (chs : list pystr) :
  0 < size -> 0 <= overlap < size -> normalize text <> [] ->
  chunk_text text size overlap = Some chs ->
  len_list chs
  = if len (normalize text) <=? size then 1
    else 1 + (len (normalize text) - size + (size - overlap) - 1)
             / (size - overlap).
Proof.
  intros Hsize Hov Hne Hret.
  destruct (chunk_text_shape text size overlap chs Hsize Hov Hret)
    as [[He _]|(_ & Hk & _ & Hend & Hbefore)]; [contradiction|].
  unfold len_list. set (n := len (normalize text)) in *.
  set (step := size - overlap) in *. remember (length chs) as k eqn:Ek.
  clear Ek. assert (Hstep : 0 < step) by (unfold step; lia).
  destruct (Z.leb_spec n size) as [Hle|Hgt].
  - destruct (Nat.eq_dec k 1%nat) as [->|Hk1]; [reflexivity|].
    specialize (Hbefore 0%nat ltac:(lia)). simpl in Hbefore. lia.
  - assert (Hk2 : (2 <= k)%nat).
    { destruct (Nat.eq_dec k 1%nat) as [Hk1|Hk1]; [|lia].
      rewrite Hk1 in Hend. simpl in Hend. lia. }
    specialize (Hbefore (k - 2)%nat ltac:(lia)).
    assert (Hq : (n - size + step - 1) / step = Z.of_nat (k - 1)).
    { symmetry. apply (Z.div_unique_pos _ _ _ (n - size + step - 1
                                                 - step * Z.of_nat (k - 1)));
        [|lia].
      replace (Z.of_nat (k - 2)) with (Z.of_nat (k - 1) - 1) in Hbefore by lia.
      nia. }
    rewrite Hq. lia.
Qed.

Lemma chunk_text_count_witness :
  0 < 700 /\ 0 <= 120 < 700
  /\ normalize (Some (repeat 0x61%N 2000)) <> []
  /\ chunk_text (Some (repeat 0x61%N 2000)) 700 120
     = Some [repeat 0x61%N 700; repeat 0x61%N 700; repeat 0x61%N 700;
             repeat 0x61%N 260]
  /\ len_list [repeat 0x61%N 700; repeat 0x61%N 700; repeat 0x61%N 700;
               repeat 0x61%N 260]
     = if len (normalize (Some (repeat 0x61%N 2000))) <=? 700 then 1
       else 1 + (len (normalize (Some (repeat 0x61%N 2000))) - 700
                 + (700 - 120) - 1) / (700 - 120).
Proof.
  assert (Hne : normalize (Some (repeat 0x61%N 2000)) <> [])
    by (vm_compute; discriminate).
  assert (H : chunk_text (Some (repeat 0x61%N 2000)) 700 120
              = Some [repeat 0x61%N 700; repeat 0x61%N 700; repeat 0x61%N 700;
                      repeat 0x61%N 260]) by (vm_compute; reflexivity).
  split; [lia|]. split; [lia|]. split; [exact Hne|]. split; [exact H|].
  apply (chunk_text_count (Some (repeat 0x61%N 2000)) 700 120 _);
    [lia|lia|exact Hne|exact H].
Defined.

(** X5.  [chunk_text] returns exactly when the normalized text is
    empty, or fits in one window, or the step [size - overlap] is
    positive; in every other case the loop never ends, whatever number of
    passes it is given. *)
Theorem chunk_text_returns_iff (text : option pystr) (size overlap : Z) :
  (is_Some (chunk_text text size overlap)
   <-> normalize text = [] \/ len (normalize text) <= size
       \/ 0 < size - overlap)
  /\ (chunk_text text size overlap = None ->
      forall fuel, chunk_text_fuel fuel text size overlap = None).
Proof.
  split; [|apply chunk_text_diverges]. split.
  - intros [chs Hret].
    destruct (normalize text) as [|c T'] eqn:HT; [now left|right].
    destruct (Z.le_gt_cases (len (c :: T')) size) as [Hle|Hgt]; [now left|].
    destruct (Z.le_gt_cases (size - overlap) 0) as [Hstep|Hstep];
      [|now right]. exfalso.
    unfold chunk_text, chunk_text_fuel, chunk_text_run in Hret.
    rewrite HT in Hret.
    rewrite chunk_while_stuck in Hret; [discriminate|exact Hstep| |];
      cbn [start]; unfold len in *; simpl length in *; lia.
  - intros [He|[Hle|Hstep]].
    + unfold chunk_text, chunk_text_fuel, chunk_text_run. rewrite He.
      simpl. eauto.
    + unfold chunk_text, chunk_text_fuel, chunk_text_run.
      destruct (normalize text) as [|c T'] eqn:HT; [simpl; eauto|].
      set (T := c :: T') in *.
      assert (Hpos : 0 < len T) by (unfold len, T; simpl; lia).
      rewrite chunk_while_step by (simpl; lia).
      unfold chunk_body. cbn [start chunks].
      destruct (Z.eqb_spec (Z.min (0 + size) (len T)) (len T)); [|lia].
      simpl. eauto.
    + now apply chunk_text_returns.
Qed.

(** ** IndexBuilder: what a rebuild stores *)

Lemma chunk_metadata_lookups d pg i :
  chunk_metadata d pg i !! str "filename" = Some (MStr (filename d))
  /\ chunk_metadata d pg i !! str "filetype" = Some (MStr (filetype d))
  /\ chunk_metadata d pg i !! str "page" = Some (MInt (page_no pg))
  /\ chunk_metadata d pg i !! str "chunk_index" = Some (MInt i).
Proof.
  unfold chunk_metadata. repeat split; vm_compute; reflexivity.
Qed.

Lemma chunk_metadata_truthy d pg i :
  truthy_meta (Some (chunk_metadata d pg i)) = true.
Proof.
  unfold truthy_meta, chunk_metadata.
  rewrite bool_decide_eq_false_2; [reflexivity|]. apply insert_non_empty.
Qed.

(** Under the configured window every chunk has between 1 and
    [CHUNK_SIZE] characters. *)
Lemma chunk_text_default_bounds text chs :
  chunk_text text CHUNK_SIZE CHUNK_OVERLAP = Some chs ->
  Forall (fun ch => 1 <= len ch <= CHUNK_SIZE) chs.
Proof.
  intros Hret.
  assert (Hsize : 0 < CHUNK_SIZE) by (unfold CHUNK_SIZE; lia).
  assert (Hov : 0 <= CHUNK_OVERLAP < CHUNK_SIZE)
    by (unfold CHUNK_SIZE, CHUNK_OVERLAP; lia).
  apply Forall_lookup_2. intros i ch Hi.
  assert (Hlt : (i < length chs)%nat) by (eapply lookup_lt_Some; eauto).
  destruct (window_starts_inside _ _ _ _ i Hsize Hov Hret Hlt) as [Hstart _].
  destruct (chunk_text_shape _ _ _ _ Hsize Hov Hret)
    as [[_ ->]|(_ & _ & Hchs & _)]; [discriminate|].
  rewrite Hchs in Hi. rewrite list_lookup_fmap in Hi.
  destruct (seq 0 (length chs) !! i) as [j|] eqn:Hj; [|discriminate].
  apply lookup_seq in Hj as [-> _]. injection Hi as <-.
  rewrite window_length by lia. lia.
Qed.

Lemma for_chunks_rows d pg chs :
  forall i acc,
    Forall (fun ch => 1 <= len ch <= CHUNK_SIZE) chs ->
    Forall3 row_ok (ids acc) (documents acc) (metadatas acc) ->
    Forall3 row_ok (ids (for_chunks d pg i chs acc))
                   (documents (for_chunks d pg i chs acc))
                   (metadatas (for_chunks d pg i chs acc)).
Proof.
  induction chs as [|ch chs IH]; intros i acc Hchs Hacc; simpl; [exact Hacc|].
  apply Forall_cons in Hchs as [Hch Hchs].
  apply IH; [exact Hchs|]. simpl.
  apply Forall3_app; [exact Hacc|]. repeat constructor.
  destruct (chunk_metadata_lookups d pg (Z.of_nat i)) as (H1 & H2 & H3 & H4).
  exists (filename d), (filetype d), (page_no pg), (Z.of_nat i).
  repeat split; try assumption; try lia.
  unfold both_truthy. cbn [fst snd]. rewrite chunk_metadata_truthy.
  destruct ch; [unfold len in Hch; simpl in Hch; lia|reflexivity].
Qed.

Lemma for_pages_rows d pgs :
  forall acc r,
    for_pages d pgs acc = Some r ->
    Forall3 row_ok (ids acc) (documents acc) (metadatas acc) ->
    Forall3 row_ok (ids r) (documents r) (metadatas r).
Proof.
  induction pgs as [|pg pgs IH]; intros acc r Hrun Hacc; simpl in Hrun.
  - now injection Hrun as <-.
  - destruct (chunk_text (Some (text pg)) CHUNK_SIZE CHUNK_OVERLAP)
      as [chs|] eqn:Hchs; [|discriminate]. simpl in Hrun.
    apply (IH _ _ Hrun). apply for_chunks_rows; [|exact Hacc].
    exact (chunk_text_default_bounds _ _ Hchs).
Qed.

Lemma for_docs_rows docs :
  forall acc r,
    for_docs docs acc = Some r ->
    Forall3 row_ok (ids acc) (documents acc) (metadatas acc) ->
    Forall3 row_ok (ids r) (documents r) (metadatas r).
Proof.
  induction docs as [|d docs IH]; intros acc r Hrun Hacc; simpl in Hrun.
  - now injection Hrun as <-.
  - destruct (for_pages d (pages d) acc) as [acc'|] eqn:Hpages;
      [|discriminate]. simpl in Hrun.
    apply (IH _ _ Hrun). exact (for_pages_rows _ _ _ _ Hpages Hacc).
Qed.

(** Whatever the client held, the collection is empty when the loader
    is called. *)
Lemma rebuild_starts_empty client :
  get_or_create_collection
    match delete_collection client with
    | Some c => c
    | None => client
    end
  = (Chroma (Some (Columns [] [] [])), Columns [] [] []).
Proof.
  unfold delete_collection, get_or_create_collection.
  destruct (collection client) eqn:Hc; simpl; [reflexivity|].
  now rewrite Hc.
Qed.

(** What a rebuild that returns leaves behind. *)
Lemma rebuild_index_result ul client docs_dir client' counts :
  rebuild_index ul client docs_dir = Some (client', counts) ->
  exists docs new,
    iter_docs ul docs_dir = Some docs
    /\ for_docs docs (Columns [] [] []) = Some new
    /\ collection client' = Some new
    /\ counts = (len_list (ids new), len_list docs).
Proof.
  unfold rebuild_index. rewrite rebuild_starts_empty.
  destruct (iter_docs ul docs_dir) as [docs|]; [|discriminate]. simpl.
  destruct (for_docs docs (Columns [] [] [])) as [new|] eqn:Hnew;
    [|discriminate]. simpl. intros [= <- <-].
  exists docs, new. split; [reflexivity|]. split; [exact Hnew|].
  split; [|reflexivity].
  pose proof (for_docs_rows _ _ _ Hnew ltac:(constructor)) as Hrows.
  destruct new as [i d m]. simpl in *.
  destruct i; [|reflexivity].
  inversion Hrows; subst. reflexivity.
Qed.

(** X6.  Every row of the collection a rebuild leaves is well
    formed: its metadata holds [filename], [filetype], [page] and
    [chunk_index], its id is the one these values spell, its document has
    between 1 and [CHUNK_SIZE] characters, and [retrieve] would keep the
    pair. *)
Theorem rebuild_index_rows (unicode_lower : N -> pystr)
    (client client' : chroma) (docs_dir : list path) (counts : Z * Z) :
  rebuild_index unicode_lower client docs_dir = Some (client', counts) ->
  exists col,
    collection client' = Some col
    /\ Forall3 row_ok (ids col) (documents col) (metadatas col).
Proof.
  intros Hrun.
  destruct (rebuild_index_result _ _ _ _ _ Hrun)
    as (docs & new & _ & Hnew & Hcol & _).
  exists new. split; [exact Hcol|].
  apply (for_docs_rows _ _ _ Hnew). constructor.
Qed.

Lemma rebuild_index_rows_witness :
  exists client' counts,
    rebuild_index ascii_only (Chroma None) demo_dir = Some (client', counts)
    /\ exists col,
         collection client' = Some col
         /\ Forall3 row_ok (ids col) (documents col) (metadatas col).
Proof.
  destruct (rebuild_index ascii_only (Chroma None) demo_dir)
    as [[client' counts]|] eqn:Hrun.
  - exists client', counts. split; [reflexivity|].
    exact (rebuild_index_rows ascii_only (Chroma None) client' demo_dir
             counts Hrun).
  - exfalso.
    assert (H : is_Some (rebuild_index ascii_only (Chroma None) demo_dir)).
    { apply rebuild_index_returns. rewrite iter_docs_demo. eauto. }
    rewrite Hrun in H. destruct H as [x Hx]. discriminate.
Defined.

Lemma loaded_count ul ps docs :
  Forall2 (loaded ul) ps docs -> length docs = length ps.
Proof. induction 1; simpl; congruence. Qed.

(** X7.  The pair a rebuild returns: the chunk count is the length
    of each of the three columns of the collection it leaves, and the
    document count is the number of regular files of the directory with
    a supported extension, also of those that gave no chunk. *)
Theorem rebuild_index_counts (unicode_lower : N -> pystr)
    (client client' : chroma) (docs_dir : list path) (counts : Z * Z) :
  rebuild_index unicode_lower client docs_dir = Some (client', counts) ->
  exists col,
    collection client' = Some col
    /\ fst counts = len_list (ids col)
    /\ fst counts = len_list (documents col)
    /\ fst counts = len_list (metadatas col)
    /\ snd counts
       = len_list (List.filter (supported unicode_lower) docs_dir).
Proof.
  intros Hrun.
  destruct (rebuild_index_result _ _ _ _ _ Hrun)
    as (docs & new & Hdocs & Hnew & Hcol & ->).
  exists new. split; [exact Hcol|]. simpl.
  pose proof (for_docs_rows _ _ _ Hnew ltac:(constructor)) as Hrows.
  unfold len_list.
  rewrite <- (Forall3_length_lm _ _ _ _ Hrows).
  rewrite <- (Forall3_length_lr _ _ _ _ Hrows).
  repeat split.
  unfold iter_docs in Hdocs.
  pose proof (iter_docs_loop_cases unicode_lower (sorted docs_dir) []) as Hl.
  rewrite Hdocs in Hl. destruct Hl as (new_docs & Heq & Hloaded).
  simpl in Heq. subst new_docs.
  rewrite (loaded_count _ _ _ Hloaded). f_equal.
  apply Permutation_length, filter_perm, sorted_perm.
Qed.

Lemma rebuild_index_counts_witness :
  exists client' counts,
    rebuild_index ascii_only (Chroma None) demo_dir = Some (client', counts)
    /\ exists col,
         collection client' = Some col
         /\ fst counts = len_list (ids col)
         /\ fst counts = len_list (documents col)
         /\ fst counts = len_list (metadatas col)
         /\ snd counts = len_list (List.filter (supported ascii_only) demo_dir).
Proof.
  destruct (rebuild_index ascii_only (Chroma None) demo_dir)
    as [[client' counts]|] eqn:Hrun.
  - exists client', counts. split; [reflexivity|].
    exact (rebuild_index_counts ascii_only (Chroma None) client' demo_dir
             counts Hrun).
  - exfalso.
    assert (H : is_Some (rebuild_index ascii_only (Chroma None) demo_dir)).
    { apply rebuild_index_returns. rewrite iter_docs_demo. eauto. }
    rewrite Hrun in H. destruct H as [x Hx]. discriminate.
Defined.

(** X8.  A rebuild is full: its outcome does not depend on what the
    store held before, so rebuilding again on an unchanged directory
    gives the same collection and the same counts. *)
Theorem rebuild_index_full (unicode_lower : N -> pystr)
    (docs_dir : list path) (client : chroma) :
  (forall other,
      rebuild_index unicode_lower client docs_dir
      = rebuild_index unicode_lower other docs_dir)
  /\ (forall client' counts,
        rebuild_index unicode_lower client docs_dir = Some (client', counts) ->
        rebuild_index unicode_lower client' docs_dir = Some (client', counts)).
Proof.
  assert (Hany : forall a b,
             rebuild_index unicode_lower a docs_dir
             = rebuild_index unicode_lower b docs_dir).
  { intros a b. unfold rebuild_index. now rewrite !rebuild_starts_empty. }
  split; [apply Hany|].
  intros client' counts Hrun. now rewrite (Hany client' client).
Qed.

(** ** IndexBuilder: every chunk is stored *)

Lemma append_chunk_aligned d pg acc i ch :
  aligned acc -> aligned (append_chunk d pg acc i ch).
Proof.
  unfold aligned. intros [H1 H2]. simpl. rewrite !length_app. simpl. lia.
Qed.

Lemma append_chunk_keeps d pg acc i ch id doc m :
  stored acc id doc m -> stored (append_chunk d pg acc i ch) id doc m.
Proof.
  intros (k & Hi & Hd & Hm). exists k. simpl.
  repeat split; apply lookup_app_l_Some; assumption.
Qed.

Lemma append_chunk_stores d pg acc i ch :
  aligned acc ->
  stored (append_chunk d pg acc i ch)
         (chunk_id (filename d) (page_no pg) (Z.of_nat i)) ch
         (chunk_metadata d pg (Z.of_nat i)).
Proof.
  intros [H1 H2]. exists (length (ids acc)). simpl. split; [|split].
  - apply list_lookup_middle. reflexivity.
  - apply list_lookup_middle. now symmetry.
  - apply list_lookup_middle. now symmetry.
Qed.

Lemma for_chunks_aligned d pg chs :
  forall i acc, aligned acc -> aligned (for_chunks d pg i chs acc).
Proof.
  induction chs as [|ch chs IH]; intros i acc Hacc; simpl; [exact Hacc|].
  apply IH, append_chunk_aligned, Hacc.
Qed.

Lemma for_chunks_keeps d pg chs id doc m :
  forall i acc,
    stored acc id doc m -> stored (for_chunks d pg i chs acc) id doc m.
Proof.
  induction chs as [|ch chs IH]; intros i acc Hacc; simpl; [exact Hacc|].
  apply IH, append_chunk_keeps, Hacc.
Qed.

(** The inner loop stores the chunk at position [j] of its list under
    the index [i + j]. *)
Lemma for_chunks_stores d pg chs :
  forall i acc j ch,
    aligned acc ->
    chs !! j = Some ch ->
    stored (for_chunks d pg i chs acc)
           (chunk_id (filename d) (page_no pg) (Z.of_nat (i + j))) ch
           (chunk_metadata d pg (Z.of_nat (i + j))).
Proof.
  induction chs as [|c chs IH]; intros i acc j ch Hacc Hj; [discriminate|].
  simpl. destruct j as [|j]; simpl in Hj.
  - injection Hj as ->. rewrite Nat.add_0_r.
    apply for_chunks_keeps, append_chunk_stores, Hacc.
  - replace (i + S j)%nat with (S i + j)%nat by lia.
    apply IH; [|exact Hj]. apply append_chunk_aligned, Hacc.
Qed.

Lemma for_pages_aligned d pgs :
  forall acc r, for_pages d pgs acc = Some r -> aligned acc -> aligned r.
Proof.
  induction pgs as [|pg pgs IH]; intros acc r Hrun Hacc; simpl in Hrun.
  - now injection Hrun as <-.
  - destruct (chunk_text (Some (text pg)) CHUNK_SIZE CHUNK_OVERLAP)
      as [chs|]; [|discriminate]. simpl in Hrun.
    apply (IH _ _ Hrun), for_chunks_aligned, Hacc.
Qed.

Lemma for_pages_keeps d pgs id doc m :
  forall acc r,
    for_pages d pgs acc = Some r -> stored acc id doc m -> stored r id doc m.
Proof.
  induction pgs as [|pg pgs IH]; intros acc r Hrun Hacc; simpl in Hrun.
  - now injection Hrun as <-.
  - destruct (chunk_text (Some (text pg)) CHUNK_SIZE CHUNK_OVERLAP)
      as [chs|]; [|discriminate]. simpl in Hrun.
    apply (IH _ _ Hrun), for_chunks_keeps, Hacc.
Qed.

Lemma for_pages_stores d pgs :
  forall acc r pg chs (j : nat) ch,
    for_pages d pgs acc = Some r ->
    aligned acc ->
    In pg pgs ->
    chunk_text (Some (text pg)) CHUNK_SIZE CHUNK_OVERLAP = Some chs ->
    chs !! j = Some ch ->
    stored r (chunk_id (filename d) (page_no pg) (Z.of_nat j)) ch
             (chunk_metadata d pg (Z.of_nat j)).
Proof.
  induction pgs as [|pg0 pgs IH]; intros acc r pg chs j ch Hrun Hacc Hin Hchs Hj;
    [destruct Hin|].
  simpl in Hrun.
  destruct (chunk_text (Some (text pg0)) CHUNK_SIZE CHUNK_OVERLAP)
    as [chs0|] eqn:Hchs0; [|discriminate]. simpl in Hrun.
  destruct Hin as [->|Hin].
  - rewrite Hchs in Hchs0. injection Hchs0 as <-.
    apply (for_pages_keeps _ _ _ _ _ _ _ Hrun).
    exact (for_chunks_stores d pg chs 0 acc j ch Hacc Hj).
  - apply (IH _ _ _ chs _ _ Hrun); try assumption.
    apply for_chunks_aligned, Hacc.
Qed.

Lemma for_docs_keeps docs id doc m :
  forall acc r,
    for_docs docs acc = Some r -> stored acc id doc m -> stored r id doc m.
Proof.
  induction docs as [|d docs IH]; intros acc r Hrun Hacc; simpl in Hrun.
  - now injection Hrun as <-.
  - destruct (for_pages d (pages d) acc) as [acc'|] eqn:Hpages;
      [|discriminate]. simpl in Hrun.
    apply (IH _ _ Hrun). exact (for_pages_keeps _ _ _ _ _ _ _ Hpages Hacc).
Qed.

Lemma for_docs_stores docs :
  forall acc r d pg chs (j : nat) ch,
    for_docs docs acc = Some r ->
    aligned acc ->
    In d docs ->
    In pg (pages d) ->
    chunk_text (Some (text pg)) CHUNK_SIZE CHUNK_OVERLAP = Some chs ->
    chs !! j = Some ch ->
    stored r (chunk_id (filename d) (page_no pg) (Z.of_nat j)) ch
             (chunk_metadata d pg (Z.of_nat j)).
Proof.
  induction docs as [|d0 docs IH];
    intros acc r d pg chs j ch Hrun Hacc Hd Hpg Hchs Hj; [destruct Hd|].
  simpl in Hrun.
  destruct (for_pages d0 (pages d0) acc) as [acc'|] eqn:Hpages;
    [|discriminate]. simpl in Hrun.
  destruct Hd as [->|Hd].
  - apply (for_docs_keeps _ _ _ _ _ _ Hrun).
    exact (for_pages_stores _ _ _ _ _ _ _ _ Hpages Hacc Hpg Hchs Hj).
  - apply (IH _ _ _ _ chs _ _ Hrun); try assumption.
    exact (for_pages_aligned _ _ _ _ Hpages Hacc).
Qed.

(** X22.  A rebuild loses nothing: for every document the loader
    returns, every page of it and every chunk the chunker cuts from the
    text of that page, the rebuilt collection holds a row with that chunk
    as its document, under the id and with the metadata that the file
    name, the page number and the index of the chunk within the page
    spell. *)
Theorem rebuild_index_stores_every_chunk (unicode_lower : N -> pystr)
    (client client' : chroma) (docs_dir : list path) (counts : Z * Z)
    (docs : list document) (d : document) (pg : page) (chs : list pystr)
    (j : nat) (ch : pystr) :
  rebuild_index unicode_lower client docs_dir = Some (client', counts) ->
  iter_docs unicode_lower docs_dir = Some docs ->
  In d docs ->
  In pg (pages d) ->
  chunk_text (Some (text pg)) CHUNK_SIZE CHUNK_OVERLAP = Some chs ->
  chs !! j = Some ch ->
  exists col,
    collection client' = Some col
    /\ stored col (chunk_id (filename d) (page_no pg) (Z.of_nat j)) ch
                  (chunk_metadata d pg (Z.of_nat j)).
Proof.
  intros Hrun Hdocs Hd Hpg Hchs Hj.
  destruct (rebuild_index_result _ _ _ _ _ Hrun)
    as (docs' & new & Hdocs' & Hnew & Hcol & _).
  rewrite Hdocs in Hdocs'. injection Hdocs' as <-.
  exists new. split; [exact Hcol|].
  apply (for_docs_stores _ _ _ _ _ chs _ _ Hnew); try assumption.
  split; reflexivity.
Qed.

Lemma rebuild_index_stores_every_chunk_witness :
  exists client' counts,
    rebuild_index ascii_only (Chroma None) demo_dir = Some (client', counts)
    /\ exists col,
         collection client' = Some col
         /\ stored col
              (chunk_id (str "b.pdf") 0 0) (str "page one")
              (chunk_metadata
                 (Document (str "b.pdf") (str "pdf")
                    [Page (str "page one") 0; Page [] 1])
                 (Page (str "page one") 0) 0).
Proof.
  destruct (rebuild_index ascii_only (Chroma None) demo_dir)
    as [[client' counts]|] eqn:Hrun.
  - exists client', counts. split; [reflexivity|].
    apply (rebuild_index_stores_every_chunk ascii_only (Chroma None) client'
             demo_dir counts _
             (Document (str "b.pdf") (str "pdf")
                [Page (str "page one") 0; Page [] 1])
             (Page (str "page one") 0) [str "page one"] 0 (str "page one")
             Hrun iter_docs_demo).
    + right. left. reflexivity.
    + left. reflexivity.
    + vm_compute. reflexivity.
    + reflexivity.
  - exfalso. vm_compute in Hrun. discriminate.
Defined.

(** ** DocumentLoader and IndexBuilder: a reader that raises *)

Lemma iter_docs_step_raises ul items p :
  reader_raises ul p -> iter_docs_step ul items p = None.
Proof.
  unfold reader_raises, supported, extension, iter_docs_step.
  intros [Hs Hr]. apply andb_true_iff in Hs as [-> _]. simpl.
  destruct Hr as [[-> Hp]|[[-> Hp]|[-> Hp]]].
  - destruct (decide (str ".txt" = str ".txt")) as [_|Hne]; [|now elim Hne].
    unfold read_txt. now rewrite Hp.
  - destruct (decide (str ".pdf" = str ".txt")) as [He|_];
      [symmetry in He; now elim txt_is_not_pdf|].
    destruct (decide (str ".pdf" = str ".pdf")) as [_|Hne]; [|now elim Hne].
    unfold read_pdf. now rewrite Hp.
  - destruct (decide (str ".docx" = str ".txt")) as [He|_];
      [symmetry in He; now elim txt_is_not_docx|].
    destruct (decide (str ".docx" = str ".pdf")) as [He|_];
      [symmetry in He; now elim pdf_is_not_docx|].
    destruct (decide (str ".docx" = str ".docx")) as [_|Hne]; [|now elim Hne].
    unfold read_docx. now rewrite Hp.
Qed.

Lemma iter_docs_loop_raises ul ps :
  Exists (reader_raises ul) ps ->
  forall items, iter_docs_loop ul ps items = None.
Proof.
  induction 1 as [p ps Hp|p ps _ IH]; intros items; simpl.
  - now rewrite iter_docs_step_raises.
  - destruct (iter_docs_step ul items p); simpl; [apply IH|reflexivity].
Qed.

Lemma iter_docs_raises ul docs_dir :
  iter_docs ul docs_dir = None <-> Exists (reader_raises ul) docs_dir.
Proof.
  unfold iter_docs. split.
  - intros Hnone.
    pose proof (iter_docs_loop_cases ul (sorted docs_dir) []) as H.
    rewrite Hnone in H. rewrite List.Exists_exists in *.
    destruct H as (p & Hin & Hp). exists p. split; [|exact Hp].
    apply (Permutation_in _ (sorted_perm docs_dir)). exact Hin.
  - intros Hex. apply iter_docs_loop_raises.
    rewrite List.Exists_exists in *. destruct Hex as (p & Hin & Hp).
    exists p. split; [|exact Hp].
    apply (Permutation_in _ (Permutation_sym (sorted_perm docs_dir))).
    exact Hin.
Qed.

(** X9.  One file that cannot be read stops the whole load: if the
    directory holds a regular file with extension [.txt] on which
    [read_text] raises, or with extension [.pdf] or [.docx] on which the
    parser of that format raises, then [iter_docs] raises and returns no
    document, wherever that file sorts and whatever the other entries
    are. *)
Theorem iter_docs_unreadable_file (unicode_lower : N -> pystr)
    (docs_dir : list path) (p : path) :
  In p docs_dir ->
  is_file p = true ->
  (extension unicode_lower p = str ".txt" /\ read_text p = None)
  \/ (extension unicode_lower p = str ".pdf" /\ pdf_pages p = None)
  \/ (extension unicode_lower p = str ".docx" /\ docx_paragraphs p = None) ->
  iter_docs unicode_lower docs_dir = None.
Proof.
  intros Hin Hf Hr. apply iter_docs_raises, List.Exists_exists.
  exists p. split; [exact Hin|]. split; [|exact Hr].
  unfold supported. rewrite Hf. simpl.
  destruct Hr as [[-> _]|[[-> _]|[-> _]]].
  - rewrite (bool_decide_eq_true_2 (str ".txt" = str ".txt")) by reflexivity.
    reflexivity.
  - rewrite (bool_decide_eq_true_2 (str ".pdf" = str ".pdf")) by reflexivity.
    apply orb_true_iff. left. apply orb_true_r.
  - rewrite (bool_decide_eq_true_2 (str ".docx" = str ".docx"))
      by reflexivity.
    apply orb_true_r.
Qed.

Lemma iter_docs_unreadable_file_witness :
  iter_docs ascii_only locked_dir = None.
Proof.
  apply (iter_docs_unreadable_file ascii_only locked_dir
           (Path (str "locked.TXT") true None None None)).
  - right. left. reflexivity.
  - reflexivity.
  - left. split; reflexivity.
Defined.

(** X10.  When a reader raises during a rebuild, the exception
    leaves [rebuild_index] after the old collection was deleted and an
    empty one created: whatever the store held before, it then holds an
    empty collection, and nothing is returned. *)
Theorem rebuild_index_failure_empties (unicode_lower : N -> pystr)
    (client : chroma) (docs_dir : list path) :
  Exists (reader_raises unicode_lower) docs_dir ->
  rebuild_index_run unicode_lower client docs_dir
    = (Chroma (Some (Columns [] [] [])), None)
  /\ rebuild_index unicode_lower client docs_dir = None.
Proof.
  intros Hex. apply iter_docs_raises in Hex.
  unfold rebuild_index_run, rebuild_index.
  rewrite rebuild_starts_empty, Hex. split; reflexivity.
Qed.

Lemma rebuild_index_failure_empties_witness :
  Exists (reader_raises ascii_only) broken_dir
  /\ rebuild_index_run ascii_only old_client broken_dir
     = (Chroma (Some (Columns [] [] [])), None)
  /\ rebuild_index ascii_only old_client broken_dir = None.
Proof.
  assert (H : Exists (reader_raises ascii_only) broken_dir).
  { apply Exists_cons_tl, Exists_cons_hd.
    split; [reflexivity|]. right. left. split; reflexivity. }
  split; [exact H|].
  exact (rebuild_index_failure_empties ascii_only old_client broken_dir H).
Defined.

(** [rebuild_index_run] is [rebuild_index] with the store kept on
    failure. *)
Lemma rebuild_index_run_agrees ul client docs_dir :
  rebuild_index ul client docs_dir
  = match rebuild_index_run ul client docs_dir with
    | (client', Some counts) => Some (client', counts)
    | (_, None) => None
    end.
Proof.
  unfold rebuild_index, rebuild_index_run.
  destruct (get_or_create_collection _) as [c col].
  destruct (iter_docs ul docs_dir) as [docs|]; [|reflexivity]. simpl.
  destruct (for_docs docs (Columns [] [] [])) as [new|]; reflexivity.
Qed.

(** ** TranslationGate: providers and their input *)

(** X12.  The two providers come together or not at all: both are
    available exactly when [transformers] imported and both pipelines
    were built; when either is missing, [translate_text] never invokes a
    provider, for any text and any target, and returns the stripped
    text. *)
Theorem translators_all_or_nothing (env : translation_env) :
  (provider_for env ZhEn = None <-> provider_for env EnZh = None)
  /\ (is_Some (provider_for env ZhEn)
      <-> _TRANSLATION_OK env = true /\ is_Some (pipeline_zh_en env)
          /\ is_Some (pipeline_en_zh env))
  /\ (provider_for env ZhEn = None ->
      forall text target,
        translate_text env text target = (py_strip (or_empty text), [])).
Proof.
  assert (Hboth : provider_for env ZhEn = None <-> provider_for env EnZh = None).
  { unfold provider_for, get_translators.
    destruct (_TRANSLATION_OK env), (pipeline_zh_en env), (pipeline_en_zh env);
      simpl; split; intros H; first [reflexivity | discriminate H]. }
  split; [exact Hboth|]. split.
  - unfold provider_for, get_translators.
    destruct (_TRANSLATION_OK env), (pipeline_zh_en env), (pipeline_en_zh env);
      simpl; split;
      try (intros [x Hx]; discriminate Hx);
      try (intros (H1 & [x Hx] & [y Hy]); discriminate);
      eauto.
  - intros Hz text target. pose proof (proj1 Hboth Hz) as He.
    rewrite translate_text_gate_form. unfold gate. rewrite Hz, He.
    repeat case_decide;
      destruct (_has_cjk text), (_has_latin text); reflexivity.
Qed.

(** X13.  Whatever a provider is invoked on is the stripped input,
    is not empty and shows the source script only (CJK and no Latin
    letter for zh→en, which happens for target [en] only; a Latin letter
    and no CJK for en→zh, which happens for target [zh] only); and one
    call of [translate_text] invokes a provider at most once. *)
Theorem translate_text_call_argument (env : translation_env)
    (text : option pystr) (target : pystr) (d : direction) (arg : pystr) :
  In (Call d arg) (snd (translate_text env text target)) ->
  snd (translate_text env text target) = [Call d arg]
  /\ arg = py_strip (or_empty text)
  /\ arg <> []
  /\ match d with
     | ZhEn => target = str "en"
               /\ _has_cjk (Some arg) = true /\ _has_latin (Some arg) = false
     | EnZh => target = str "zh"
               /\ _has_latin (Some arg) = true /\ _has_cjk (Some arg) = false
     end.
Proof.
  rewrite translate_text_gate_form. intros Hin.
  assert (Hgate : forall d' src other,
             In (Call d arg) (snd (gate env d' src other
                                     (py_strip (or_empty text)))) ->
             d = d' /\ arg = py_strip (or_empty text)
             /\ src = true /\ other = false
             /\ snd (gate env d' src other (py_strip (or_empty text)))
                = [Call d arg]).
  { intros d' src other. unfold gate.
    destruct src, other; simpl; try tauto.
    destruct (provider_for env d') as [p|]; simpl; [|tauto].
    destruct (p (py_strip (or_empty text))); simpl;
      intros [[= <- <-]|[]]; auto. }
  assert (Hne : forall P : N -> bool, existsb P arg = true -> arg <> []).
  { intros P H ->. discriminate H. }
  repeat case_decide.
  - apply Hgate in Hin as (-> & -> & Hc & Hl & Hcalls).
    rewrite <- has_cjk_strip in Hc. rewrite <- has_latin_strip in Hl.
    split; [exact Hcalls|]. split; [reflexivity|].
    split; [exact (Hne is_cjk Hc)|auto].
  - apply Hgate in Hin as (-> & -> & Hl & Hc & Hcalls).
    rewrite <- has_cjk_strip in Hc. rewrite <- has_latin_strip in Hl.
    split; [exact Hcalls|]. split; [reflexivity|].
    split; [exact (Hne is_latin Hl)|auto].
  - destruct Hin.
Qed.

Lemma translate_text_call_argument_witness :
  In (Call ZhEn ni_hao)
     (snd (translate_text env_fixed (Some (str "  " ++ ni_hao)) (str "en")))
  /\ snd (translate_text env_fixed (Some (str "  " ++ ni_hao)) (str "en"))
     = [Call ZhEn ni_hao]
  /\ ni_hao = py_strip (or_empty (Some (str "  " ++ ni_hao)))
  /\ ni_hao <> []
  /\ (str "en" = str "en"
      /\ _has_cjk (Some ni_hao) = true /\ _has_latin (Some ni_hao) = false).
Proof.
  assert (H : In (Call ZhEn ni_hao)
                (snd (translate_text env_fixed (Some (str "  " ++ ni_hao))
                        (str "en")))) by (left; reflexivity).
  split; [exact H|].
  exact (translate_text_call_argument env_fixed (Some (str "  " ++ ni_hao))
           (str "en") ZhEn ni_hao H).
Defined.

(** ** Stripping *)

Lemma lstrip_fixed s : starts_space s = false -> lstrip s = s.
Proof. destruct s as [|c s]; simpl; [reflexivity|]. now intros ->. Qed.

Lemma lstrip_clean s : starts_space (lstrip s) = false.
Proof.
  induction s as [|c s IH]; simpl; [reflexivity|].
  destruct (py_isspace c) eqn:E; [exact IH|]. simpl. exact E.
Qed.

Lemma lstrip_snoc u c :
  py_isspace c = false -> lstrip (u ++ [c]) = lstrip u ++ [c].
Proof.
  intros Hc. induction u as [|x u IH]; simpl.
  - now rewrite Hc.
  - destruct (py_isspace x); [exact IH|reflexivity].
Qed.

Lemma rstrip_keeps_start s :
  starts_space s = false -> starts_space (rstrip s) = false.
Proof.
  unfold rstrip. destruct s as [|c s]; [reflexivity|]. simpl. intros Hc.
  rewrite lstrip_snoc by exact Hc. rewrite rev_app_distr. simpl. exact Hc.
Qed.

Lemma py_strip_clean s :
  starts_space (py_strip s) = false /\ ends_space (py_strip s) = false.
Proof.
  unfold py_strip. split.
  - apply rstrip_keeps_start, lstrip_clean.
  - unfold ends_space, rstrip. rewrite rev_involutive. apply lstrip_clean.
Qed.

Lemma py_strip_fixed s :
  starts_space s = false -> ends_space s = false -> py_strip s = s.
Proof.
  intros Hs He. unfold py_strip, rstrip. rewrite (lstrip_fixed s Hs).
  rewrite (lstrip_fixed (rev s) He). apply rev_involutive.
Qed.

Lemma py_strip_idempotent s : py_strip (py_strip s) = py_strip s.
Proof. destruct (py_strip_clean s). now apply py_strip_fixed. Qed.

Lemma gate_no_call env d src other t :
  snd (gate env d src other t) = [] -> fst (gate env d src other t) = t.
Proof.
  unfold gate. destruct (src && negb other); [|reflexivity].
  destruct (provider_for env d) as [p|]; [|reflexivity].
  destruct (p t); simpl; intros H; first [discriminate H | reflexivity].
Qed.

(** X14.  [translate_text] depends on its text only through the
    stripped text: stripping the input beforehand changes neither the
    result nor the provider invocations; so feeding a result that no
    provider produced back in gives the same result again. *)
Theorem translate_text_of_stripped (env : translation_env)
    (text : option pystr) (target : pystr) :
  translate_text env (Some (py_strip (or_empty text))) target
    = translate_text env text target
  /\ (snd (translate_text env text target) = [] ->
      translate_text env (Some (fst (translate_text env text target))) target
        = translate_text env text target).
Proof.
  assert (Hpre : translate_text env (Some (py_strip (or_empty text))) target
                 = translate_text env text target).
  { rewrite !translate_text_gate_form.
    rewrite has_cjk_strip, has_latin_strip. simpl or_empty.
    now rewrite py_strip_idempotent. }
  split; [exact Hpre|]. intros Hnone.
  assert (Hfst : fst (translate_text env text target)
                 = py_strip (or_empty text)).
  { revert Hnone. rewrite translate_text_gate_form.
    repeat case_decide; try reflexivity; apply gate_no_call. }
  rewrite Hfst. exact Hpre.
Qed.

(** ** Search: snippets and bullets *)

Lemma lstrip_In x s : In x (lstrip s) -> In x s.
Proof.
  induction s as [|c s IH]; simpl; [tauto|].
  destruct (py_isspace c); simpl; tauto.
Qed.

Lemma py_strip_In x s : In x (py_strip s) -> In x s.
Proof.
  unfold py_strip, rstrip. intros H.
  apply in_rev, lstrip_In in H. apply in_rev in H. revert H. apply lstrip_In.
Qed.

Lemma take_In {A} (x : A) n l : In x (take n l) -> In x l.
Proof.
  intros H. rewrite <- (take_drop n l). apply in_or_app. now left.
Qed.

Lemma make_snippet_cases doc :
  let s := py_strip (replace_char 10 32 (or_empty doc)) in
  (260 < len s /\ make_snippet doc = take 260 s ++ [0x2026%N])
  \/ (len s <= 260 /\ make_snippet doc = s).
Proof.
  intros s. unfold make_snippet. fold s.
  destruct (Z.ltb_spec 260 (len s)) as [Hlong|Hshort]; [left|right; auto].
  split; [exact Hlong|]. rewrite py_slice_inner by lia.
  replace (Z.to_nat (260 - 0)) with 260%nat by lia.
  change (Z.to_nat 0) with 0%nat. now rewrite drop_0.
Qed.

Lemma make_snippet_length doc : len (make_snippet doc) <= 261.
Proof.
  destruct (make_snippet_cases doc) as [[Hl ->]|[Hl ->]]; [|lia].
  unfold len in *. rewrite length_app, length_take. cbn [length]. lia.
Qed.

Lemma make_snippet_clean_ends doc :
  starts_space (make_snippet doc) = false
  /\ ends_space (make_snippet doc) = false.
Proof.
  destruct (py_strip_clean (replace_char 10 32 (or_empty doc))) as [Hs He].
  destruct (make_snippet_cases doc) as [[Hl ->]|[Hl ->]]; [|auto].
  split.
  - destruct (py_strip (replace_char 10 32 (or_empty doc))) as [|c s'];
      [unfold len in Hl; simpl in Hl; lia|]. exact Hs.
  - unfold ends_space. rewrite rev_app_distr. reflexivity.
Qed.

Lemma make_snippet_stripped doc : py_strip (make_snippet doc) = make_snippet doc.
Proof.
  destruct (make_snippet_clean_ends doc) as [Hs He]. now apply py_strip_fixed.
Qed.

(** X15.  A snippet has at most 261 characters (260 and the
    ellipsis), holds no line feed, and neither starts nor ends with
    whitespace. *)
Theorem make_snippet_shape (doc : option pystr) :
  len (make_snippet doc) <= 261
  /\ ~ In 0x0A%N (make_snippet doc)
  /\ starts_space (make_snippet doc) = false
  /\ ends_space (make_snippet doc) = false.
Proof.
  split; [apply make_snippet_length|]. split; [|apply make_snippet_clean_ends].
  assert (Hlf : ~ In 0x0A%N (py_strip (replace_char 10 32 (or_empty doc)))).
  { intros H. apply py_strip_In in H. unfold replace_char in H.
    apply in_map_iff in H as (c & Hc & _).
    destruct (N.eqb_spec c 10); [discriminate|]. congruence. }
  destruct (make_snippet_cases doc) as [[_ ->]|[_ ->]]; [|exact Hlf].
  intros H. apply in_app_or in H as [H|[H|[]]]; [|discriminate].
  apply Hlf. exact (take_In _ _ _ H).
Qed.

(** One call of [translate_text] invokes no provider, or one provider
    once on the stripped text, which is then not empty. *)
Lemma translate_text_calls env text target :
  translate_text env text target = (py_strip (or_empty text), [])
  \/ (exists d,
        snd (translate_text env text target)
          = [Call d (py_strip (or_empty text))]
        /\ (target = str "en" /\ d = ZhEn \/ target = str "zh" /\ d = EnZh)
        /\ py_strip (or_empty text) <> []).
Proof.
  rewrite translate_text_gate_form.
  assert (Hne : forall P : N -> bool,
             existsb P (py_strip (or_empty text)) = true ->
             py_strip (or_empty text) <> []).
  { intros P H E. rewrite E in H. discriminate H. }
  pose proof (has_cjk_strip text) as Hc.
  pose proof (has_latin_strip text) as Hl.
  unfold _has_cjk, _has_latin in Hc, Hl. simpl or_empty in Hc, Hl.
  assert (Hgate : forall d src other,
             (src = true -> py_strip (or_empty text) <> []) ->
             gate env d src other (py_strip (or_empty text))
               = (py_strip (or_empty text), [])
             \/ (snd (gate env d src other (py_strip (or_empty text)))
                   = [Call d (py_strip (or_empty text))]
                 /\ py_strip (or_empty text) <> [])).
  { intros d src other Hsrc. unfold gate.
    destruct src; simpl; [|now left].
    destruct other; simpl; [now left|].
    destruct (provider_for env d) as [p|]; [|now left].
    destruct (p (py_strip (or_empty text))); right; auto. }
  repeat case_decide.
  - destruct (Hgate ZhEn (_has_cjk text) (_has_latin text)) as [H'|[H' Hn]];
      [|now left|right; exists ZhEn; auto].
    intros E. apply (Hne is_cjk). rewrite Hc. exact E.
  - destruct (Hgate EnZh (_has_latin text) (_has_cjk text)) as [H'|[H' Hn]];
      [|now left|right; exists EnZh; auto].
    intros E. apply (Hne is_latin). rewrite Hl. exact E.
  - now left.
Qed.

Lemma bullet_text_cases env LANG doc :
  bullet_text env LANG doc = (make_snippet doc, [])
  \/ (make_snippet doc <> []
      /\ snd (bullet_text env LANG doc)
         = [Call (if decide (LANG = str "en") then ZhEn else EnZh)
                 (make_snippet doc)]).
Proof.
  unfold bullet_text.
  destruct (decide (LANG = str "en")) as [HL|HL].
  - destruct (translate_text_calls env (Some (make_snippet doc)) (str "en"))
      as [H|(d & Hcalls & Hd & Hne)]; simpl or_empty in *;
      rewrite make_snippet_stripped in *; [now left|right].
    split; [exact Hne|]. rewrite Hcalls.
    destruct Hd as [[_ ->]|[He _]]; [reflexivity|].
    symmetry in He. now elim en_is_not_zh.
  - destruct (translate_text_calls env (Some (make_snippet doc)) (str "zh"))
      as [H|(d & Hcalls & Hd & Hne)]; simpl or_empty in *;
      rewrite make_snippet_stripped in *; [now left|right].
    split; [exact Hne|]. rewrite Hcalls.
    destruct Hd as [[He _]|[_ ->]]; [now elim en_is_not_zh|reflexivity].
Qed.

(** X16.  In the search flow a bullet is either the snippet
    verbatim, with no provider invoked, or one provider was invoked once,
    on exactly the snippet: zh→en when [LANG] is [en], en→zh
    otherwise. *)
Theorem bullet_text_verbatim_or_translated (env : translation_env)
    (LANG : pystr) (doc : option pystr) :
  bullet_text env LANG doc = (make_snippet doc, [])
  \/ snd (bullet_text env LANG doc)
     = [Call (if decide (LANG = str "en") then ZhEn else EnZh)
             (make_snippet doc)].
Proof.
  destruct (bullet_text_cases env LANG doc) as [H|[_ H]]; auto.
Qed.

Lemma bullets_loop_shape env LANG pairs :
  forall i bullets calls,
    exists new_bullets new_calls,
      bullets_loop env LANG i pairs bullets calls
        = (bullets ++ new_bullets, calls ++ new_calls)
      /\ map (fun b => fst (fst b)) new_bullets
         = map (fun k => i + Z.of_nat k) (seq 0 (length pairs))
      /\ map snd new_bullets = map snd pairs
      /\ (length new_calls <= length pairs)%nat
      /\ Forall (fun c => 1 <= len (call_text c) <= 261) new_calls.
Proof.
  induction pairs as [|[doc meta] pairs IH]; intros i bullets calls; simpl.
  - exists [], []. rewrite !app_nil_r.
    split; [reflexivity|]. split; [reflexivity|]. split; [reflexivity|].
    split; [simpl; lia|constructor].
  - destruct (bullet_text env LANG doc) as [snippet cs] eqn:Hb.
    destruct (IH (i + 1) (bullets ++ [(i, snippet, meta)]) (calls ++ cs))
      as (nb & nc & Hrun & Hnum & Hmeta & Hlen & Hall).
    exists ((i, snippet, meta) :: nb), (cs ++ nc).
    rewrite Hrun, <- !app_assoc. split; [reflexivity|]. simpl.
    split; [|split; [|split]].
    + rewrite Hnum. f_equal; [lia|]. rewrite <- seq_shift, map_map.
      apply map_ext. intros k. lia.
    + now rewrite Hmeta.
    + rewrite length_app.
      destruct (bullet_text_cases env LANG doc) as [H|[_ H]];
        rewrite Hb in H; simpl in H; [injection H as _ ->|rewrite H];
        simpl; lia.
    + apply Forall_app. split; [|exact Hall].
      destruct (bullet_text_cases env LANG doc) as [H|[Hne H]];
        rewrite Hb in H; simpl in H; [injection H as _ ->; constructor|].
      rewrite H. repeat constructor; simpl.
      * destruct (make_snippet doc); [now elim Hne|unfold len; simpl; lia].
      * apply make_snippet_length.
Qed.

(** X17.  The search flow makes one bullet per retrieved pair,
    numbered from 1 in the order of the pairs and carrying the pair's
    metadata; it invokes a provider at most once per pair, and every text
    it hands to a provider has between 1 and 261 characters. *)
Theorem search_bullets_shape (env : translation_env) (LANG : pystr)
    (pairs : list (option pystr * option metadata)) :
  map (fun b => fst (fst b)) (fst (search_bullets env LANG pairs))
    = map (fun k => 1 + Z.of_nat k) (seq 0 (length pairs))
  /\ map snd (fst (search_bullets env LANG pairs)) = map snd pairs
  /\ (length (snd (search_bullets env LANG pairs)) <= length pairs)%nat
  /\ Forall (fun c => 1 <= len (call_text c) <= 261)
            (snd (search_bullets env LANG pairs)).
Proof.
  unfold search_bullets.
  destruct (bullets_loop_shape env LANG pairs 1 [] [])
    as (nb & nc & Hrun & H). rewrite Hrun. simpl. exact H.
Qed.

(** ** Sidebar: the listed files *)

Section ListingFacts.

Variable ul : N -> pystr.
Variables timestamp kilobytes : Type.
Variable stat : path -> option (timestamp * Z).
Variable format_time : timestamp -> option pystr.
Variable round_kb : Z -> kilobytes.

Lemma suffix_listed_supported p :
  is_file p && suffix_listed ul p = supported ul p.
Proof.
  unfold suffix_listed, supported, extension. f_equal.
  generalize (lower ul (suffix p)). intros e.
  destruct (decide (e = str ".txt")) as [->|Htxt]; [reflexivity|].
  destruct (decide (e = str ".pdf")) as [->|Hpdf]; [reflexivity|].
  destruct (decide (e = str ".docx")) as [->|Hdocx]; [reflexivity|].
  rewrite (bool_decide_eq_false_2 (e = str ".txt")) by exact Htxt.
  rewrite (bool_decide_eq_false_2 (e = str ".pdf")) by exact Hpdf.
  rewrite (bool_decide_eq_false_2 (e = str ".docx")) by exact Hdocx.
  apply bool_decide_eq_false_2.
  intros Hin. apply list_elem_of_In in Hin.
  destruct Hin as [H|[H|[H|[]]]]; symmetry in H; contradiction.
Qed.

Lemma listed_type p :
  supported ul p = true ->
  In (lstrip_char 0x2E (lower ul (suffix p))) [str "txt"; str "pdf"; str "docx"].
Proof.
  unfold supported, extension. intros H.
  apply andb_true_iff in H as [_ H].
  apply orb_true_iff in H as [H|H]; [apply orb_true_iff in H as [H|H]|];
    apply bool_decide_eq_true_1 in H; rewrite H; simpl; tauto.
Qed.

Lemma list_docs_status_loop_files ps :
  forall rows r,
    list_docs_status_loop ul timestamp kilobytes stat format_time round_kb
      ps rows = Some r ->
    exists new,
      r = rows ++ new
      /\ map (status_file timestamp kilobytes) new
         = map name (List.filter (supported ul) ps)
      /\ Forall (fun row => In (status_type timestamp kilobytes row)
                              [str "txt"; str "pdf"; str "docx"]) new.
Proof.
  induction ps as [|p ps IH]; intros rows r Hrun; simpl in Hrun.
  - injection Hrun as <-. exists []. rewrite app_nil_r. repeat constructor.
  - unfold list_docs_status_step in Hrun.
    pose proof (suffix_listed_supported p) as Hs.
    pose proof (listed_type p) as Ht. simpl.
    destruct (is_file p); simpl in *.
    + destruct (suffix_listed ul p); simpl in *; rewrite <- Hs.
      * destruct (stat p) as [[t size]|]; [|discriminate]. simpl in Hrun.
        destruct (format_time t) as [m|]; [|discriminate]. simpl in Hrun.
        destruct (IH _ _ Hrun) as (new & -> & Hfiles & Htypes).
        eexists (_ :: new). rewrite <- app_assoc. split; [reflexivity|].
        simpl. rewrite Hfiles. split; [reflexivity|].
        constructor; [|exact Htypes]. simpl. apply Ht. now symmetry.
      * now apply IH.
    + rewrite <- Hs. now apply IH.
Qed.


Lemma iter_docs_filenames docs_dir docs :
  iter_docs ul docs_dir = Some docs ->
  map filename docs = map name (List.filter (supported ul) (sorted docs_dir)).
Proof.
  unfold iter_docs. intros Hdocs.
  pose proof (iter_docs_loop_cases ul (sorted docs_dir) []) as H.
  rewrite Hdocs in H. destruct H as (new & -> & Hloaded). simpl.
  exact (loaded_filenames _ _ _ Hloaded).
Qed.

(** X18.  What [list_docs_status] lists is what [iter_docs] loads:
    when both return, the rows name the loaded documents, one row per
    document and in the same order, and the type of every row is [txt],
    [pdf] or [docx]. *)
Theorem list_docs_status_matches_loader (entries : list path)
    (rows : list (status_row timestamp kilobytes)) (docs : list document) :
  list_docs_status ul timestamp kilobytes stat format_time round_kb
    (Some entries) = Some rows ->
  iter_docs ul entries = Some docs ->
  map (status_file timestamp kilobytes) rows = map filename docs
  /\ Forall (fun row => In (status_type timestamp kilobytes row)
                          [str "txt"; str "pdf"; str "docx"]) rows.
Proof using Type.
  unfold list_docs_status. intros Hrows Hdocs.
  destruct (list_docs_status_loop_files _ _ _ Hrows) as (new & -> & Hf & Ht).
  simpl. rewrite Hf, (iter_docs_filenames _ _ Hdocs). auto.
Qed.


End ListingFacts.

Lemma list_docs_status_matches_loader_witness :
  exists rows docs,
    list_docs_status ascii_only Z Z demo_stat demo_format_time demo_round_kb
      (Some demo_dir) = Some rows
    /\ iter_docs ascii_only demo_dir = Some docs
    /\ map (status_file Z Z) rows = map filename docs
    /\ Forall (fun row => In (status_type Z Z row)
                             [str "txt"; str "pdf"; str "docx"]) rows.
Proof.
  destruct (list_docs_status ascii_only Z Z demo_stat demo_format_time
              demo_round_kb (Some demo_dir)) as [rows|] eqn:Hrows;
    [|vm_compute in Hrows; discriminate].
  exists rows. eexists. split; [reflexivity|].
  split; [exact iter_docs_demo|].
  exact (list_docs_status_matches_loader ascii_only Z Z demo_stat
           demo_format_time demo_round_kb demo_dir rows _ Hrows iter_docs_demo).
Defined.

Example list_docs_status_demo :
  map (fun r => (status_file Z Z r, status_type Z Z r))
      (default [] (list_docs_status ascii_only Z Z demo_stat demo_format_time
                     demo_round_kb (Some demo_dir)))
  = [ (str "a.docx", str "docx"); (str "b.pdf", str "pdf");
      (str "notes.TXT", str "txt") ].
Proof. vm_compute. reflexivity. Qed.


Example docs_rows_demo :
  _docs_rows ascii_only Z Z failing_stat demo_format_time demo_round_kb
    (Listed demo_dir)
  = Some [ DocsRow Z (str "a.docx") (str "docx") (str "?") None;
           DocsRow Z (str "b.pdf") (str "pdf") (str "?") None;
           DocsRow Z (str "notes.TXT") (str "txt") (str "?") None ].
Proof. vm_compute. reflexivity. Qed.

(** ** Paths typed by the user *)

Lemma lstrip_is_lstrip_chars s : lstrip s = lstrip_chars py_isspace s.
Proof. induction s as [|c s IH]; simpl; [reflexivity|]. now rewrite IH. Qed.

Lemma py_strip_is_strip_chars s : py_strip s = strip_chars py_isspace s.
Proof.
  unfold py_strip, rstrip, strip_chars. now rewrite !lstrip_is_lstrip_chars.
Qed.

Section StripChars.

Variable f : N -> bool.

Lemma lstrip_chars_prefix pre mid :
  forallb f pre = true -> starts_with f mid = false ->
  lstrip_chars f (pre ++ mid) = mid.
Proof.
  intros Hpre Hmid. induction pre as [|c pre IH]; simpl in *.
  - destruct mid as [|x mid]; [reflexivity|]. simpl in *. now rewrite Hmid.
  - apply andb_true_iff in Hpre as [-> Hpre]. now apply IH.
Qed.

Lemma lstrip_chars_all s : forallb f s = true -> lstrip_chars f s = [].
Proof.
  induction s as [|c s IH]; simpl; [reflexivity|].
  intros H. apply andb_true_iff in H as [-> H]. now apply IH.
Qed.

(** Stripping removes a wrapping made of characters of the set, and
    nothing more when what is wrapped has no such character at either
    end. *)
Lemma strip_chars_wrapped pre mid post :
  forallb f pre = true -> forallb f post = true ->
  starts_with f mid = false -> starts_with f (rev mid) = false ->
  strip_chars f (pre ++ mid ++ post) = mid.
Proof.
  intros Hpre Hpost Hs He. unfold strip_chars.
  destruct mid as [|x mid].
  - simpl. rewrite (lstrip_chars_all (pre ++ post)); [reflexivity|].
    rewrite forallb_forall in *. intros y Hy.
    apply in_app_or in Hy as [Hy|Hy]; auto.
  - rewrite lstrip_chars_prefix; [|exact Hpre|exact Hs].
    rewrite rev_app_distr, lstrip_chars_prefix;
      [apply rev_involutive| |exact He].
    rewrite forallb_forall in *. intros y Hy. apply Hpost.
    now apply in_rev.
Qed.

(** A string between two runs of characters outside the set starts
    outside the set. *)
Lemma starts_with_between a b c :
  forallb (fun x => negb (f x)) a = true -> starts_with f b = false ->
  forallb (fun x => negb (f x)) c = true ->
  starts_with f (a ++ b ++ c) = false.
Proof.
  intros Ha Hb Hc. destruct a as [|x a]; simpl in *.
  - destruct b as [|y b]; simpl in *; [|exact Hb].
    destruct c as [|z c]; simpl in *; [reflexivity|].
    apply andb_true_iff in Hc as [Hz _]. now apply negb_true_iff.
  - apply andb_true_iff in Ha as [Hx _]. now apply negb_true_iff.
Qed.

Lemma forallb_rev_eq (g : N -> bool) l :
  forallb g l = true -> forallb g (rev l) = true.
Proof.
  rewrite !forallb_forall. intros H x Hx. apply H. now apply in_rev.
Qed.

Lemma starts_with_rev_between a b c :
  forallb (fun x => negb (f x)) a = true -> starts_with f (rev b) = false ->
  forallb (fun x => negb (f x)) c = true ->
  starts_with f (rev (a ++ b ++ c)) = false.
Proof.
  intros Ha Hb Hc. rewrite !rev_app_distr, <- app_assoc.
  apply starts_with_between; auto using forallb_rev_eq.
Qed.

End StripChars.

Lemma forallb_weaken (g h : N -> bool) l :
  (forall x, g x = true -> h x = true) ->
  forallb g l = true -> forallb h l = true.
Proof. rewrite !forallb_forall. auto. Qed.

Lemma is_wrapping_false c :
  is_wrapping c = false ->
  py_isspace c = false /\ (0x22 =? c)%N = false /\ (0x27 =? c)%N = false.
Proof.
  unfold is_wrapping. intros H.
  apply orb_false_iff in H as [H H3]. apply orb_false_iff in H as [H1 H2].
  rewrite N.eqb_sym in H2. rewrite N.eqb_sym in H3. auto.
Qed.

Lemma starts_with_wrapping s :
  starts_with is_wrapping s = false ->
  starts_with py_isspace s = false
  /\ starts_with (N.eqb 0x22) s = false
  /\ starts_with (N.eqb 0x27) s = false.
Proof.
  destruct s as [|c s]; simpl; [auto|]. apply is_wrapping_false.
Qed.

(** X21.  [resolve_user_path] removes what wraps the typed path:
    whitespace outside, then double quotes, then single quotes inside
    them; for a path that has none of these characters at either end the
    result is that path when it starts with a slash, and that path under
    [BASE_DIR] otherwise (POSIX paths). *)
Theorem resolve_user_path_unwraps (ws1 d1 q1 s q2 d2 ws2 : pystr) :
  blank ws1 = true -> blank ws2 = true ->
  forallb (N.eqb 0x22) d1 = true -> forallb (N.eqb 0x22) d2 = true ->
  forallb (N.eqb 0x27) q1 = true -> forallb (N.eqb 0x27) q2 = true ->
  starts_with is_wrapping s = false ->
  starts_with is_wrapping (rev s) = false ->
  resolve_user_path (ws1 ++ d1 ++ q1 ++ s ++ q2 ++ d2 ++ ws2)
  = if is_absolute s then Absolute s else UnderBase s.
Proof.
  intros Hw1 Hw2 Hd1 Hd2 Hq1 Hq2 Hs He.
  apply starts_with_wrapping in Hs as (Hs1 & Hs2 & Hs3).
  apply starts_with_wrapping in He as (He1 & He2 & He3).
  assert (Hdq_sp : forall l, forallb (N.eqb 0x22) l = true ->
                     forallb (fun x => negb (py_isspace x)) l = true).
  { intros l. apply forallb_weaken. intros x Hx.
    apply N.eqb_eq in Hx as <-. reflexivity. }
  assert (Hsq_sp : forall l, forallb (N.eqb 0x27) l = true ->
                     forallb (fun x => negb (py_isspace x)) l = true).
  { intros l. apply forallb_weaken. intros x Hx.
    apply N.eqb_eq in Hx as <-. reflexivity. }
  assert (Hsq_dq : forall l, forallb (N.eqb 0x27) l = true ->
                     forallb (fun x => negb (0x22 =? x)%N) l = true).
  { intros l. apply forallb_weaken. intros x Hx.
    apply N.eqb_eq in Hx as <-. reflexivity. }
  unfold resolve_user_path.
  replace (ws1 ++ d1 ++ q1 ++ s ++ q2 ++ d2 ++ ws2)
    with (ws1 ++ (d1 ++ (q1 ++ s ++ q2) ++ d2) ++ ws2)
    by (now rewrite <- !app_assoc).
  rewrite py_strip_is_strip_chars.
  rewrite (strip_chars_wrapped py_isspace); try assumption.
  - rewrite (strip_chars_wrapped (N.eqb 0x22)); try assumption.
    + rewrite (strip_chars_wrapped (N.eqb 0x27)); try assumption.
      unfold is_absolute. now destruct (starts_with (N.eqb 47) s).
    + apply starts_with_between; auto.
    + apply starts_with_rev_between; auto.
  - apply starts_with_between; auto.
    apply starts_with_between; auto.
  - apply starts_with_rev_between; auto.
    apply starts_with_rev_between; auto.
Qed.

Lemma resolve_user_path_unwraps_witness :
  blank (str "  ") = true /\ blank (str " ") = true
  /\ forallb (N.eqb 0x22) [0x22%N] = true
  /\ forallb (N.eqb 0x22) [0x22%N] = true
  /\ forallb (N.eqb 0x27) [] = true /\ forallb (N.eqb 0x27) [] = true
  /\ starts_with is_wrapping (str "my docs") = false
  /\ starts_with is_wrapping (rev (str "my docs")) = false
  /\ resolve_user_path
       (str "  " ++ [0x22%N] ++ [] ++ str "my docs" ++ [] ++ [0x22%N]
        ++ str " ")
     = if is_absolute (str "my docs") then Absolute (str "my docs")
       else UnderBase (str "my docs").
Proof.
  repeat (split; [reflexivity|]).
  apply (resolve_user_path_unwraps (str "  ") [0x22%N] [] (str "my docs") []
           [0x22%N] (str " ")); reflexivity.
Defined.

(** The quotes are stripped in one order only: double quotes inside
    single quotes stay. *)
Example resolve_user_path_nested_quotes :
  resolve_user_path ([0x27; 0x22]%N ++ str "docs" ++ [0x22; 0x27]%N)
  = UnderBase ([0x22%N] ++ str "docs" ++ [0x22%N]).
Proof. reflexivity. Qed.

Example resolve_user_path_absolute :
  resolve_user_path (str " /srv/docs ") = Absolute (str "/srv/docs").
Proof. reflexivity. Qed.
